(** * The mibios bulk loader: a shallow embedding and its properties

    The development follows the Python sources:

    - [mibios_umrad/utils.py]: [CSV_Spec] (column declarations, [cut]);
    - [mibios/load.py]: [AbstractLoader] (header matching, [process_line],
      [process_file], [account]) and [GeneralLoader.process_row].

    Python dictionaries that are iterated are association lists in insertion
    order; counters and attribute tables are finite maps.  Exceptions are an
    explicit outcome type that carries the interpreter state reached at the
    point of the raise, because attribute and container mutations survive an
    exception while database writes inside [transaction.atomic] do not. *)

From Stdlib Require Import Strings.Ascii Strings.String.
From stdpp Require Import base option list strings gmap pretty.

(** ** Exceptions *)

Module Py.

(** The exception classes that occur in the modelled code. *)
Inductive exn_class :=
  | ValueError
  | AttributeError
  | FieldDoesNotExist
  | ValidationError
  | IntegrityError
  | UserDataError
  | RuntimeError
  | UnboundLocalError
  | DryRunRollback.

#[global] Instance exn_class_eq_dec : EqDecision exn_class.
Proof. solve_decision. Defined.

(** An exception instance: its class and [str(e)].  For a
    [ValidationError] the text stands for [str(e.message_dict)]. *)
Record exn := Exn { exn_type : exn_class; exn_msg : string }.

#[global] Instance exn_eq_dec : EqDecision exn.
Proof. solve_decision. Defined.

(** [type(e).__name__] *)
Definition type_name (c : exn_class) : string :=
  match c with
  | ValueError => "ValueError"
  | AttributeError => "AttributeError"
  | FieldDoesNotExist => "FieldDoesNotExist"
  | ValidationError => "ValidationError"
  | IntegrityError => "IntegrityError"
  | UserDataError => "UserDataError"
  | RuntimeError => "RuntimeError"
  | UnboundLocalError => "UnboundLocalError"
  | DryRunRollback => "DryRunRollback"
  end.

(** Result of a computation that may raise before it has touched any
    state worth keeping. *)
Inductive result (A : Type) :=
  | Ok (a : A)
  | Error (e : exn).
Arguments Ok {A} a.
Arguments Error {A} e.

Definition bind {A B} (r : result A) (k : A -> result B) : result B :=
  match r with
  | Ok a => k a
  | Error e => Error e
  end.

(** A field of the value returned, [None] after a raise. *)
Definition returned {A B} (f : A -> B) (r : result A) : option B :=
  match r with
  | Ok a => Some (f a)
  | Error _ => None
  end.

End Py.

Import Py.

(** ** [CSV_Spec] (mibios_umrad/utils.py) *)

Module CSV_Spec.

(** Objects that appear inside a column declaration. *)
Inductive pyobj :=
  | PNone
  | PStr (s : string)
  | PInt (n : Z)
  | PFun (f : string -> string).

(** A declaration is a tuple (table with header) or a bare key. *)
Inductive column_spec :=
  | Tuple (items : list pyobj)
  | Plain (key : pyobj).

Definition is_None (o : pyobj) : bool :=
  match o with PNone => true | _ => false end.

Definition callable (o : pyobj) : bool :=
  match o with PFun _ => true | _ => false end.

(** [str(o)] as used by the f-string of the error message; a function
    object prints as an opaque tag. *)
Definition str (o : pyobj) : string :=
  match o with
  | PNone => "None"
  | PStr s => s
  | PInt n => pretty n
  | PFun _ => "<function>"
  end.

(** The attributes set by [setup]. *)
Record t := Spec {
  _spec : list column_spec;
  has_header : option bool;
  all_cols : list pyobj;
  cols : list pyobj;
  all_keys : list pyobj;
  keys : list pyobj;
  convfuncs : list pyobj;
}.

(** The five lists built by the loop of [setup], and [has_header]. *)
Record acc := Acc {
  a_has_header : option bool;
  a_all_cols : list pyobj;
  a_all_keys : list pyobj;
  a_keys : list pyobj;
  a_conv : list pyobj;
}.

Definition acc0 : acc := Acc None [] [] [] [].

(** One iteration of [for row in column_specs]. *)
Definition setup_row (a : acc) (row : column_spec) : result acc :=
  match row with
  | Tuple (colname :: key :: convfunc) =>
      let a1 := Acc (Some true) (a_all_cols a ++ [colname])
                    (a_all_keys a ++ [key]) (a_keys a) (a_conv a) in
      if is_None key then Ok a1
      else
        let a2 := Acc (a_has_header a1) (a_all_cols a1) (a_all_keys a1)
                      (a_keys a1 ++ [key]) (a_conv a1) in
        match convfunc with
        | c :: _ =>
            if callable c then
              Ok (Acc (a_has_header a2) (a_all_cols a2) (a_all_keys a2)
                      (a_keys a2) (a_conv a2 ++ [c]))
            else Error (Exn ValueError ("not a callable: " +:+ str c))
        | [] =>
            Ok (Acc (a_has_header a2) (a_all_cols a2) (a_all_keys a2)
                    (a_keys a2) (a_conv a2 ++ [PNone]))
        end
  | Tuple items =>
      Error (Exn ValueError
               ("not enough values to unpack (expected at least 2, got "
                +:+ pretty (length items) +:+ ")"))
  | Plain key =>
      let a1 := Acc (Some false) (a_all_cols a) (a_all_keys a ++ [key])
                    (a_keys a) (a_conv a) in
      if is_None key then Ok a1
      else Ok (Acc (a_has_header a1) (a_all_cols a1) (a_all_keys a1)
                   (a_keys a1 ++ [key]) (a_conv a1 ++ [PNone]))
  end.

Fixpoint setup_loop (a : acc) (column_specs : list column_spec) : result acc :=
  match column_specs with
  | [] => Ok a
  | row :: rest => bind (setup_row a row) (fun a' => setup_loop a' rest)
  end.

(** [setup(self)] with [column_specs = self._spec]; [cols] stays empty. *)
Definition setup (column_specs : list column_spec) : result t :=
  bind (setup_loop acc0 column_specs) (fun a =>
    Ok (Spec column_specs (a_has_header a) (a_all_cols a) []
             (a_all_keys a) (a_keys a) (a_conv a))).

(** [CSV_Spec.__init__(self, *column_specs)] *)
Definition __init__ (column_specs : list column_spec) : result t :=
  match column_specs with
  | [] => Error (Exn ValueError "at least one column needs to be declared")
  | _ => setup column_specs
  end.

(** [__len__] *)
Definition len (s : t) : nat := length (_spec s).

(** [zip(keys, row)] stops at the shorter argument. *)
Fixpoint zip {A B} (l : list A) (k : list B) : list (A * B) :=
  match l, k with
  | a :: l', b :: k' => (a, b) :: zip l' k'
  | _, _ => []
  end.

(** The values yielded by the generator [cut(self, row)], in order. *)
Definition cut_keys {A} (all_keys : list pyobj) (row : list A) : list A :=
  (zip all_keys row) ≫= (fun kv => if is_None kv.1 then [] else [kv.2]).

Definition cut {A} (self : t) (row : list A) : list A :=
  cut_keys (all_keys self) row.

(** The claim's wording: the values at the positions, in increasing
    order, that exist in both the declaration and the row and whose
    declared key is not [None]. *)
Definition cut_by_position {A} (all_keys : list pyobj) (row : list A) : list A :=
  omap (fun i =>
          match all_keys !! i, row !! i with
          | Some k, Some v => if is_None k then None else Some v
          | _, _ => None
          end)
       (seq 0 (length all_keys)).

(** A declaration that [setup] accepts. *)
Definition well_formed (d : column_spec) : bool :=
  match d with
  | Tuple (_ :: key :: convfunc) =>
      is_None key ||
      match convfunc with
      | c :: _ => callable c
      | [] => true
      end
  | Tuple _ => false
  | Plain _ => true
  end.

End CSV_Spec.

(** ** Text *)

Module Text.

(** [split_go sep s skip cur]: [cur] is the field read so far, [skip]
    the number of characters of a matched separator still to pass. *)
Fixpoint split_go (sep s : string) (skip : nat) (cur : string) : list string :=
  match s with
  | EmptyString => [cur]
  | String c s' =>
      match skip with
      | S n => split_go sep s' n cur
      | O =>
          if String.prefix sep s
          then cur :: split_go sep s' (String.length sep - 1) EmptyString
          else split_go sep s' 0 (cur +:+ String c EmptyString)
      end
  end.

(** [s.split(sep)]; [None] where Python raises [ValueError] for an empty
    separator. *)
Definition split (s sep : string) : option (list string) :=
  match sep with
  | EmptyString => None
  | _ => Some (split_go sep s 0 EmptyString)
  end.

(** [sep.join(l)] *)
Fixpoint join (sep : string) (l : list string) : string :=
  match l with
  | [] => EmptyString
  | [x] => x
  | x :: rest => x +:+ sep +:+ join sep rest
  end.

(** The line feed. *)
Definition nl : string := String (ascii_of_nat 10) EmptyString.

(** The double quote. *)
Definition dq : string := String (ascii_of_nat 34) EmptyString.

(** The tabulator, the default separator. *)
Definition tab : string := String (ascii_of_nat 9) EmptyString.

End Text.

(** ** Python built-ins used by the loader *)

(** [str.casefold] and [str.strip] follow the Unicode tables of the
    interpreter, [str(d)] of a dictionary its [repr], and [sys.argv] the
    process; the loader is stated over any implementation of them. *)
Class Python := {
  casefold : string -> string;
  strip : string -> string;
  str_dict : list (string * string) -> string;
  argv : list string;
}.

(** [str.lower] and the [repr] of a string follow the interpreter as
    well. *)
Class Builtins := {
  lower : string -> string;
  repr : string -> string;
}.

(** An implementation for ASCII text. *)
Module Ascii_text.

Definition lower (c : ascii) : ascii :=
  let n := nat_of_ascii c in
  if (65 <=? n) && (n <=? 90) then ascii_of_nat (n + 32) else c.

Fixpoint casefold (s : string) : string :=
  match s with
  | EmptyString => EmptyString
  | String c s' => String (lower c) (casefold s')
  end.

(** The ASCII characters for which [str.isspace] holds. *)
Definition is_space (c : ascii) : bool :=
  let n := nat_of_ascii c in
  ((9 <=? n) && (n <=? 13)) || ((28 <=? n) && (n <=? 32)).

Fixpoint lstrip (s : string) : string :=
  match s with
  | EmptyString => EmptyString
  | String c s' => if is_space c then lstrip s' else s
  end.

Definition strip (s : string) : string :=
  String.rev (lstrip (String.rev (lstrip s))).

(** ['k': 'v'], without the escapes of [repr]. *)
Definition str_item (kv : string * string) : string :=
  "'" +:+ kv.1 +:+ "': '" +:+ kv.2 +:+ "'".

Definition str_dict (d : list (string * string)) : string :=
  "{" +:+ Text.join ", " (str_item <$> d) +:+ "}".

End Ascii_text.

(** ** Dictionaries in insertion order *)

Module Dict.

Definition t (V : Type) := list (string * V).

Fixpoint get {V} (d : t V) (k : string) : option V :=
  match d with
  | [] => None
  | (k', v) :: rest => if decide (k' = k) then Some v else get rest k
  end.

Definition mem {V} (d : t V) (k : string) : bool :=
  match get d k with Some _ => true | None => false end.

(** [d[k] = v]: an existing key keeps its position. *)
Fixpoint set {V} (d : t V) (k : string) (v : V) : t V :=
  match d with
  | [] => [(k, v)]
  | (k', v') :: rest =>
      if decide (k' = k) then (k, v) :: rest else (k', v') :: set rest k v
  end.

(** [del d[k]] / [d.pop(k)] for a key that may be absent. *)
Fixpoint remove {V} (d : t V) (k : string) : t V :=
  match d with
  | [] => []
  | (k', v') :: rest =>
      if decide (k' = k) then remove rest k else (k', v') :: remove rest k
  end.

(** The dictionary built by inserting the pairs in order, as a
    comprehension or [dict(pairs)] does. *)
Definition of_pairs {V} (l : list (string * V)) : t V :=
  foldl (fun d kv => set d kv.1 kv.2) [] l.

Definition keys {V} (d : t V) : list string := fst <$> d.

End Dict.

(** ** String and number built-ins, for text of code points below 256 *)

Module Str.

(** The characters for which [str.isspace] holds. *)
Definition is_space (c : ascii) : bool :=
  let n := nat_of_ascii c in
  ((9 <=? n) && (n <=? 13)) || ((28 <=? n) && (n <=? 32))
  || (n =? 133) || (n =? 160).

Fixpoint lstrip (s : string) : string :=
  match s with
  | EmptyString => EmptyString
  | String c s' => if is_space c then lstrip s' else s
  end.

Fixpoint rstrip (s : string) : string :=
  match s with
  | EmptyString => EmptyString
  | String c s' =>
      match rstrip s' with
      | EmptyString => if is_space c then EmptyString else String c EmptyString
      | r => String c r
      end
  end.

(** [s.strip()] *)
Definition strip (s : string) : string := rstrip (lstrip s).

(** [sub in s] *)
Fixpoint contains (sub s : string) : bool :=
  String.prefix sub s
  || match s with
     | EmptyString => false
     | String _ s' => contains sub s'
     end.

(** [s[n:]] *)
Fixpoint slice_from (n : nat) (s : string) : string :=
  match n, s with
  | S n', String _ s' => slice_from n' s'
  | _, _ => s
  end.

Fixpoint zeros (n : nat) : string :=
  match n with
  | 0 => EmptyString
  | S n' => String "0" (zeros n')
  end.

(** [s.zfill(width)]: the zeros are inserted after a leading sign. *)
Definition zfill (width : nat) (s : string) : string :=
  match width - String.length s with
  | 0 => s
  | fill =>
      match s with
      | String c r =>
          if Ascii.eqb c "+" || Ascii.eqb c "-"
          then String c (zeros fill +:+ r)
          else zeros fill +:+ s
      | EmptyString => zeros fill
      end
  end.

(** The number of hyphens of a string: [s.count("-")]. *)
Fixpoint dashes (s : string) : nat :=
  match s with
  | EmptyString => 0
  | String c s' => (if Ascii.eqb c "-" then 1 else 0) + dashes s'
  end.

End Str.

Module Number.

(** The value of a decimal digit. *)
Definition digit (c : ascii) : option Z :=
  let n := Z.of_nat (nat_of_ascii c) in
  if (48 <=? n)%Z && (n <=? 57)%Z then Some (n - 48)%Z else None.

(** The digits of a literal, where single underscores may stand between
    digits; [seen] says that the previous character was a digit. *)
Fixpoint digits (acc : Z) (seen : bool) (s : string) : option Z :=
  match s with
  | EmptyString => if seen then Some acc else None
  | String c s' =>
      match digit c with
      | Some d => digits (10 * acc + d) true s'
      | None =>
          if Ascii.eqb c "_" && seen then digits acc false s' else None
      end
  end.

(** [int(s)] for a string: surrounding whitespace, an optional sign,
    decimal digits.  [None] stands for the [ValueError].  (The
    interpreter's limit on the length of a literal, 4300 digits by
    default, lies far beyond the field values concerned here.) *)
Definition int (s : string) : option Z :=
  match Str.strip s with
  | EmptyString => None
  | String c r =>
      if Ascii.eqb c "-" then Z.opp <$> digits 0 false r
      else if Ascii.eqb c "+" then digits 0 false r
      else digits 0 false (String c r)
  end.

(** [str(n)] *)
Definition str (n : Z) : string := pretty n.

(** Strings all of whose characters are decimal digits. *)
Fixpoint numeral (s : string) : bool :=
  match s with
  | EmptyString => true
  | String c s' => bool_decide (is_Some (digit c)) && numeral s'
  end.

End Number.

(** ** [grouper] and [chunker] (mibios_umrad/utils.py) *)

Module Utils.

(** One tuple of [zip_longest( *args, fillvalue=fillvalue)] where [args]
    is [n] times one and the same iterator: every position draws the
    next item, or is filled once the iterator is exhausted.  Returns the
    tuple and what is left of the iterator. *)
Fixpoint draw {A} (n : nat) (fillvalue : A) (it : list A) : list A * list A :=
  match n with
  | 0 => ([], it)
  | S n' =>
      match it with
      | [] => (fillvalue :: (draw n' fillvalue []).1, [])
      | x :: it' =>
          let r := draw n' fillvalue it' in (x :: r.1, r.2)
      end
  end.

(** The tuples of [zip_longest]: it stops when the iterator is exhausted
    at the start of a tuple.  [fuel] bounds the number of tuples. *)
Fixpoint tuples {A} (fuel n : nat) (fillvalue : A) (it : list A)
  : list (list A) :=
  match fuel, it with
  | S fuel', _ :: _ =>
      let r := draw n fillvalue it in r.1 :: tuples fuel' n fillvalue r.2
  | _, _ => []
  end.

(** [grouper(iterable, n, fillvalue)]; without an argument
    [zip_longest] yields nothing.  No more than [len(iterable)] tuples
    are ever needed. *)
Definition grouper {A} (iterable : list A) (n : nat) (fillvalue : A)
  : list (list A) :=
  match n with
  | 0 => []
  | _ => tuples (length iterable) n fillvalue iterable
  end.

(** [chunker(iterable, n)].  The sentinel is an object of its own: among
    the values that a group holds it is [None], an item [x] of the
    iterable is [Some x]. *)
Definition chunker {A} (iterable : list A) (n : nat) : list (list (option A)) :=
  let is_sentinel (i : option A) := match i with None => true | Some _ => false end in
  (fun grp =>
     match last grp with
     | Some None => List.filter (fun i => negb (is_sentinel i)) grp
     | _ => grp
     end)
  <$> grouper (Some <$> iterable) n None.

End Utils.

(** ** Natural keys and coercions of the sequencing models
    (mibios_seq/models.py) *)

Module Sequencing.

Definition MOCK : string := "mock".
Definition WATER : string := "water".
Definition BLANK : string := "blank".
Definition PLATE : string := "plate".
Definition OTHER : string := "other".

Definition CONTROL_CHOICES : list (string * string) :=
  [(MOCK, MOCK); (WATER, WATER); (BLANK, BLANK); (PLATE, PLATE); (OTHER, OTHER)].

(** [Sequencing.parse_control(cls, txt)] *)
Definition parse_control `{Python} `{Builtins} (txt : string) : string :=
  let choice := lower (strip txt) in
  if bool_decide (choice = EmptyString) then EmptyString
  else
    default OTHER
      (List.find (fun i => Str.contains i choice) (fst <$> CONTROL_CHOICES)).

End Sequencing.

Module SequencingRun.

(** The property [natural] of a run with the given [serial] and
    [number]: ["{}-{}".format(self.serial, self.number)]. *)
Definition natural (serial : string) (number : Z) : string :=
  serial +:+ "-" +:+ Number.str number.

(** [SequencingRun.natural_lookup(cls, value)]; the pair stands for
    [dict(serial=s, number=int(n))]. *)
Definition natural_lookup `{Builtins} (value : string) : result (string * Z) :=
  match Text.split value "-" with
  | Some [s; n] =>
      match Number.int n with
      | Some i => Ok (s, i)
      | None =>
          Error (Exn ValueError
                   ("invalid literal for int() with base 10: " +:+ repr n))
      end
  | Some (_ :: _ :: _ :: _) =>
      Error (Exn ValueError "too many values to unpack (expected 2)")
  | _ =>
      Error (Exn ValueError "not enough values to unpack (expected 2, got 1)")
  end.

End SequencingRun.

Module ASV.

Definition PREFIX : string := "ASV".
Definition NUM_WIDTH : nat := 5.

(** The property [natural] of an [ASV] with the given [number] and
    primary key: the numbered name, or the primary key when the number
    is unset or zero. *)
Definition natural (number : option Z) (pk : option nat) : string + option nat :=
  match number with
  | Some n =>
      if bool_decide (n = 0%Z) then inr pk
      else inl (PREFIX +:+ Str.zfill NUM_WIDTH (Number.str n))
  | None => inr pk
  end.

(** [ASV.natural_lookup(cls, value)]; the number stands for
    [dict(number=...)]. *)
Definition natural_lookup `{Builtins} (value : string) : result Z :=
  let n := Str.slice_from (String.length PREFIX) value in
  match Number.int n with
  | Some i => Ok i
  | None =>
      Error (Exn ValueError
               ("invalid literal for int() with base 10: " +:+ repr n))
  end.

End ASV.

(** ** The persistent store and its model instances *)

Module Store.

#[local] Set Warnings "-register-all".

(** Values held by fields and by the record of a row: text, a reference
    to a model instance (model name and primary key; the key is [None]
    before the first [save]), or a nested dictionary. *)
Inductive value :=
  | VNone
  | VStr (s : string)
  | VObj (model : string) (pk : option nat)
  | VDict (items : list (string * value)).

Fixpoint value_eqb (a b : value) : bool :=
  match a, b with
  | VNone, VNone => true
  | VStr s, VStr t => bool_decide (s = t)
  | VObj m p, VObj m' p' => bool_decide (m = m') && bool_decide (p = p')
  | VDict l, VDict l' =>
      (fix items_eqb (l l' : list (string * value)) : bool :=
         match l, l' with
         | [], [] => true
         | (k, v) :: r, (k', v') :: r' =>
             bool_decide (k = k') && value_eqb v v' && items_eqb r r'
         | _, _ => false
         end) l l'
  | _, _ => false
  end.

(** Truth value of an object, as tested by [elif v:]. *)
Definition truthy (v : value) : bool :=
  match v with
  | VNone => false
  | VStr s => negb (bool_decide (s = EmptyString))
  | VObj _ _ => true
  | VDict items => negb (bool_decide (items = []))
  end.

(** A field that holds no data: unset or blank text. *)
Definition is_empty (v : value) : bool :=
  match v with
  | VNone => true
  | VStr s => bool_decide (s = EmptyString)
  | _ => false
  end.

(** A value that holds data throughout: not [None], not blank text, and
    a dictionary only of such values. *)
Fixpoint solid (v : value) : bool :=
  match v with
  | VNone => false
  | VStr s => negb (bool_decide (s = EmptyString))
  | VObj _ _ => true
  | VDict items =>
      (fix all_solid (items : list (string * value)) : bool :=
         match items with
         | [] => true
         | (_, c) :: r => solid c && all_solid r
         end) items
  end.

(** The audit entry attached by [add_change_record]. *)
Record change_record := ChangeRecord {
  cr_file : string;
  cr_line : nat;
  cr_user : option string;
  cr_cmdline : string;
}.

(** A model instance in memory. *)
Record instance := Inst {
  i_model : string;
  i_pk : option nat;
  i_attrs : gmap string value;
  i_change : option change_record;
}.

(** A stored row. *)
Record entity := Entity {
  e_model : string;
  e_pk : nat;
  e_fields : gmap string value;
}.

(** The database: rows, the audit trail, and the many-to-many links
    (model, primary key, field, linked value). *)
Record db := DB {
  rows : list entity;
  history : list (string * nat * change_record);
  m2m : list (string * nat * string * value);
}.

Definition empty_db : db := DB [] [] [].


(** The row [e'] is the row [e] with, at most, fields filled in that were
    empty. *)
Definition keeps_data (e e' : entity) : Prop :=
  e_model e' = e_model e /\ e_pk e' = e_pk e
  /\ forall k v, e_fields e !! k = Some v -> is_empty v = false ->
                 e_fields e' !! k = Some v.

(** The database [d'] holds every row of [d], with its data kept, and
    every link of [d]. *)
Definition extends (d d' : db) : Prop :=
  (forall e, e ∈ rows d -> exists e', e' ∈ rows d' /\ keeps_data e e')
  /\ (forall l, l ∈ m2m d -> l ∈ m2m d').

(** The database [d'] has, for every row of [d], a row of the same model
    and primary key, has every link of [d], and its audit trail
    continues that of [d]. *)
Definition retains (d d' : db) : Prop :=
  (forall e, e ∈ rows d ->
     exists e', e' ∈ rows d' /\ e_model e' = e_model e /\ e_pk e' = e_pk e)
  /\ (forall l, l ∈ m2m d -> l ∈ m2m d')
  /\ history d `prefix_of` history d'.

(** Schema-level behaviour of the models, which live outside the loader:
    [Model.decode_blank]; [full_clean] ([Some d] stands for a
    [ValidationError] whose [message_dict] prints as [d]); the constraint
    check of the database at [save] ([Some m] stands for an
    [IntegrityError] with text [m]). *)
Class Models := {
  decode_blank : string -> string;
  full_clean : db -> instance -> option string;
  db_constraint : db -> instance -> option string;
}.

Definition getattr (obj : instance) (k : string) : value :=
  default VNone (i_attrs obj !! k).

Definition setattr (obj : instance) (k : string) (v : value) : instance :=
  Inst (i_model obj) (i_pk obj) (<[k := v]> (i_attrs obj)) (i_change obj).

(** [for k, v in from_row.items(): setattr(obj, k, v)] *)
Definition setattrs (obj : instance) (from_row : Dict.t value) : instance :=
  foldl (fun o kv => setattr o kv.1 kv.2) obj from_row.

(** [obj.add_change_record(file=, line=, user=, cmdline=)] *)
Definition add_change_record (obj : instance) (c : change_record) : instance :=
  Inst (i_model obj) (i_pk obj) (i_attrs obj) (Some c).

(** [model( **kwargs)]: a fresh, unsaved instance. *)
Definition construct (model : string) (kwargs : Dict.t value) : instance :=
  setattrs (Inst model None ∅ None) kwargs.

(** The instance that a query returns for a stored row. *)
Definition load (e : entity) : instance :=
  Inst (e_model e) (Some (e_pk e)) (e_fields e) None.

(** Does the row satisfy the lookup [model.objects.filter( **kwargs)]? *)
Definition matches (model : string) (kwargs : Dict.t value) (e : entity) : bool :=
  bool_decide (e_model e = model)
  && forallb (fun kv => match e_fields e !! kv.1 with
                        | Some v => value_eqb v kv.2
                        | None => false
                        end) kwargs.

Inductive lookup :=
  | Found (obj : instance)
  | DoesNotExist
  | MultipleObjectsReturned.

(** [model.objects.get( **kwargs)] *)
Definition get (d : db) (model : string) (kwargs : Dict.t value) : lookup :=
  match List.filter (matches model kwargs) (rows d) with
  | [] => DoesNotExist
  | [e] => Found (load e)
  | _ => MultipleObjectsReturned
  end.

(** The next primary key of a model's table. *)
Definition fresh_pk (model : string) (rs : list entity) : nat :=
  S (foldr (fun e m => if decide (e_model e = model) then Nat.max (e_pk e) m else m)
           0 rs).

Definition same_row (model : string) (pk : nat) (e : entity) : bool :=
  bool_decide (e_model e = model) && bool_decide (e_pk e = pk).

(** Write the row of an instance: update in place, or append. *)
Fixpoint put (rs : list entity) (e : entity) : list entity :=
  match rs with
  | [] => [e]
  | r :: rest =>
      if same_row (e_model e) (e_pk e) r then e :: rest else r :: put rest e
  end.

Definition audit (obj : instance) (pk : nat) : list (string * nat * change_record) :=
  match i_change obj with
  | Some c => [(i_model obj, pk, c)]
  | None => []
  end.

(** [obj.save()]: the row is written together with its audit entry; a
    new instance receives its primary key. *)
Definition save `{Models} (d : db) (obj : instance) : result (instance * db) :=
  match db_constraint d obj with
  | Some msg => Error (Exn IntegrityError msg)
  | None =>
      let pk := match i_pk obj with
                | Some pk => pk
                | None => fresh_pk (i_model obj) (rows d)
                end in
      Ok (Inst (i_model obj) (Some pk) (i_attrs obj) (i_change obj),
          DB (put (rows d) (Entity (i_model obj) pk (i_attrs obj)))
             (history d ++ audit obj pk)
             (m2m d))
  end.

(** [getattr(obj, field).add(v)]: links are only ever added. *)
Definition m2m_add (d : db) (obj : instance) (field : string) (v : value)
  : result db :=
  match i_pk obj with
  | None =>
      Error (Exn ValueError
               "instance needs a primary key before a many-to-many relationship can be used")
  | Some pk =>
      let present :=
        existsb (fun l => bool_decide (l.1.1.1 = i_model obj)
                          && bool_decide (l.1.1.2 = pk)
                          && bool_decide (l.1.2 = field)
                          && value_eqb l.2 v) (m2m d) in
      Ok (if present then d
          else DB (rows d) (history d) (m2m d ++ [(i_model obj, pk, field, v)]))
  end.

(** Modelled from the spec: [Model.compare] (mibios/models.py) is not
    part of the sources at hand.  Section 4.3 step 3: a field-by-field
    diff between the current values of the existing entity and the
    proposed values; the diff is consistent when every differing field is
    currently empty or unset.  Returns [(consistent, diff)]. *)
Definition compare (obj : instance) (from_row : Dict.t value)
  : bool * list string :=
  let diff :=
    (List.filter (fun kv => negb (value_eqb (getattr obj kv.1) kv.2)) from_row).*1 in
  (forallb (fun k => is_empty (getattr obj k)) diff, diff).

End Store.

(** ** [AbstractLoader] (mibios/load.py) *)

Module AbstractLoader.
Import Store.

(** An entry of [missing_data]: a string, or a compiled pattern given by
    its [match] test. *)
Inductive missing :=
  | MStr (s : string)
  | MPattern (matches : string -> bool).

(** An entry of [changed[model_name]]: the instance, by identity, and the
    (field, current value, proposed value) triples. *)
Definition change : Type :=
  (string * option nat) * list (string * value * value).

(** The [Counter] and [defaultdict(list)] objects live on a heap; the
    loader's attributes [new], [added] and [changed] are references, so
    that copying an attribute copies the reference, not the object. *)
Record heap := Heap {
  counters : gmap nat (gmap string nat);
  deflists : gmap nat (gmap string (list change));
}.

Definition counter_at (h : heap) (l : nat) : gmap string nat :=
  default ∅ (counters h !! l).

Definition deflist_at (h : heap) (l : nat) : gmap string (list change) :=
  default ∅ (deflists h !! l).

(** [c[k] += 1] on the [Counter] at [l] *)
Definition counter_incr (l : nat) (k : string) (h : heap) : heap :=
  let c := counter_at h l in
  Heap (<[l := <[k := S (default 0 (c !! k))]> c]> (counters h)) (deflists h).

(** [d[k].append(x)] on the [defaultdict(list)] at [l] *)
Definition deflist_append (l : nat) (k : string) (x : change) (h : heap) : heap :=
  let d := deflist_at h l in
  Heap (counters h) (<[l := <[k := default [] (d !! k) ++ [x]]> d]> (deflists h)).

(** The heap [h'] is reached from [h] by incrementing counters and by
    appending to the change lists at [l]. *)
Inductive grows (l : nat) (h : heap) : heap -> Prop :=
  | grows_refl : grows l h h
  | grows_incr h' c k : grows l h h' -> grows l h (counter_incr c k h')
  | grows_append h' k x : grows l h h' -> grows l h (deflist_append l k x h').

(** The attributes of a loader.  [file] is [self.file.name]; [file],
    [linenum] and [last_warning] are the attributes that [process_file]
    creates. *)
Record t := Loader {
  cols : list string;
  ignored_columns : list string;
  warnings : list string;
  sep : string;
  new : nat;
  added : nat;
  changed : nat;
  count : nat;
  can_overwrite : bool;
  warn_on_error : bool;
  strict_sample_id : bool;
  dry_run : bool;
  user : option string;
  file : string;
  linenum : nat;
  last_warning : option (string * string * nat * nat);
  row : Dict.t string;
  rec : Dict.t value;
}.

Definition set_warnings (x : list string) (s : t) : t :=
  Loader (cols s) (ignored_columns s) x (sep s) (new s) (added s)
    (changed s) (count s) (can_overwrite s) (warn_on_error s)
    (strict_sample_id s) (dry_run s) (user s) (file s) (linenum s)
    (last_warning s) (row s) (rec s).

Definition set_new (x : nat) (s : t) : t :=
  Loader (cols s) (ignored_columns s) (warnings s) (sep s) x (added s)
    (changed s) (count s) (can_overwrite s) (warn_on_error s)
    (strict_sample_id s) (dry_run s) (user s) (file s) (linenum s)
    (last_warning s) (row s) (rec s).

Definition set_added (x : nat) (s : t) : t :=
  Loader (cols s) (ignored_columns s) (warnings s) (sep s) (new s) x
    (changed s) (count s) (can_overwrite s) (warn_on_error s)
    (strict_sample_id s) (dry_run s) (user s) (file s) (linenum s)
    (last_warning s) (row s) (rec s).

Definition set_changed (x : nat) (s : t) : t :=
  Loader (cols s) (ignored_columns s) (warnings s) (sep s) (new s) (added s)
    x (count s) (can_overwrite s) (warn_on_error s) (strict_sample_id s)
    (dry_run s) (user s) (file s) (linenum s) (last_warning s) (row s)
    (rec s).

Definition set_count (x : nat) (s : t) : t :=
  Loader (cols s) (ignored_columns s) (warnings s) (sep s) (new s) (added s)
    (changed s) x (can_overwrite s) (warn_on_error s) (strict_sample_id s)
    (dry_run s) (user s) (file s) (linenum s) (last_warning s) (row s)
    (rec s).

Definition set_dry_run (x : bool) (s : t) : t :=
  Loader (cols s) (ignored_columns s) (warnings s) (sep s) (new s) (added s)
    (changed s) (count s) (can_overwrite s) (warn_on_error s)
    (strict_sample_id s) x (user s) (file s) (linenum s) (last_warning s)
    (row s) (rec s).

Definition set_file (x : string) (s : t) : t :=
  Loader (cols s) (ignored_columns s) (warnings s) (sep s) (new s) (added s)
    (changed s) (count s) (can_overwrite s) (warn_on_error s)
    (strict_sample_id s) (dry_run s) (user s) x (linenum s) (last_warning s)
    (row s) (rec s).

Definition set_linenum (x : nat) (s : t) : t :=
  Loader (cols s) (ignored_columns s) (warnings s) (sep s) (new s) (added s)
    (changed s) (count s) (can_overwrite s) (warn_on_error s)
    (strict_sample_id s) (dry_run s) (user s) (file s) x (last_warning s)
    (row s) (rec s).

Definition set_last_warning (x : option (string * string * nat * nat)) (s : t) : t :=
  Loader (cols s) (ignored_columns s) (warnings s) (sep s) (new s) (added s)
    (changed s) (count s) (can_overwrite s) (warn_on_error s)
    (strict_sample_id s) (dry_run s) (user s) (file s) (linenum s) x (row s)
    (rec s).

Definition set_row (x : Dict.t string) (s : t) : t :=
  Loader (cols s) (ignored_columns s) (warnings s) (sep s) (new s) (added s)
    (changed s) (count s) (can_overwrite s) (warn_on_error s)
    (strict_sample_id s) (dry_run s) (user s) (file s) (linenum s)
    (last_warning s) x (rec s).

Definition set_rec (x : Dict.t value) (s : t) : t :=
  Loader (cols s) (ignored_columns s) (warnings s) (sep s) (new s) (added s)
    (changed s) (count s) (can_overwrite s) (warn_on_error s)
    (strict_sample_id s) (dry_run s) (user s) (file s) (linenum s)
    (last_warning s) (row s) x.

(** Loader object, heap and database together. *)
Record world := World { self : t; heap_of : heap; db_of : db }.

Definition with_self (f : t -> t) (w : world) : world :=
  World (f (self w)) (heap_of w) (db_of w).

Definition with_heap (f : heap -> heap) (w : world) : world :=
  World (self w) (f (heap_of w)) (db_of w).

Definition with_db (d : db) (w : world) : world :=
  World (self w) (heap_of w) d.

(** A statement either completes with a value or raises; both leave a
    world behind. *)
Inductive outcome (A : Type) :=
  | Done (a : A) (w : world)
  | Raised (e : exn) (w : world).
Arguments Done {A} a w.
Arguments Raised {A} e w.

Definition obind {A B} (m : outcome A) (k : A -> world -> outcome B) : outcome B :=
  match m with
  | Done a w => k a w
  | Raised e w => Raised e w
  end.

(** The statement completes. *)
Definition completes {A} (m : outcome A) : bool :=
  match m with
  | Done _ _ => true
  | Raised _ _ => false
  end.

(** The exception raised, if any. *)
Definition raised {A} (m : outcome A) : option exn :=
  match m with
  | Done _ _ => None
  | Raised e _ => Some e
  end.

Definition final {A} (m : outcome A) : world :=
  match m with
  | Done _ w => w
  | Raised _ w => w
  end.

(** [with transaction.atomic(): body]: when the body raises, the writes
    to the database are rolled back; objects in memory keep their state. *)
Definition atomic {A} (body : world -> outcome A) (w : world) : outcome A :=
  match body w with
  | Done a w' => Done a w'
  | Raised e w' => Raised e (with_db (db_of w) w')
  end.

(** What a concrete loader provides. *)
Class Subclass := {
  COLS : list (string * string);
  missing_data : list missing;
  process_row : world -> outcome unit;
}.

(** The column names of [__init__]: [(self.cols, self.ignored_columns)]. *)
Definition match_columns `{Python} (COLS : list (string * string))
    (colnames : list string) : list string * list string :=
  let _cols := Dict.of_pairs ((fun ij => (casefold ij.1, ij.2)) <$> COLS) in
  foldl (fun acc i =>
           match Dict.get _cols (casefold i) with
           | Some j => (acc.1 ++ [j], acc.2)
           | None => (acc.1 ++ [i], acc.2 ++ [i])
           end)
        ([], []) colnames.

(** [__init__]: the two [Counter]s and the [defaultdict] are allocated
    on the heap.  (The closing loop of the source sets an attribute that
    is literally called [name] and is never read; it is left out.) *)
Definition __init__ `{Python} `{Subclass} (colnames : list string)
    (sep : string) (can_overwrite warn_on_error strict_sample_id dry_run : bool)
    (user : option string) : t * heap :=
  let cs := match_columns COLS colnames in
  (Loader cs.1 cs.2 [] sep 0 1 0 0 can_overwrite warn_on_error
          strict_sample_id dry_run user EmptyString 1 None [] [],
   Heap {[ 0 := ∅; 1 := ∅ ]} {[ 0 := ∅ ]}).

Section methods.
Context `{Python} `{Models}.

(** [obj.full_clean(); obj.save()] *)
Definition clean_and_save (obj : instance) (w : world) : outcome instance :=
  match full_clean (db_of w) obj with
  | Some d => Raised (Exn ValidationError d) w
  | None =>
      match save (db_of w) obj with
      | Error e => Raised e w
      | Ok (obj', d') => Done obj' (with_db d' w)
      end
  end.

(** The reference under which an instance is kept. *)
Definition ref (obj : instance) : value := VObj (i_model obj) (i_pk obj).

(** The keyword arguments of [add_change_record] in [account]. *)
Definition audit_entry (s : t) : change_record :=
  ChangeRecord (file s) (linenum s) (user s)
    (match user s with
     | None => Text.join " " argv
     | Some _ => EmptyString
     end).

(** [[(i, getattr(obj, i), from_row.get(i)) for i in diff]] *)
Definition triples (obj : instance) (from_row : Dict.t value)
    (diff : list string) : list (string * value * value) :=
  (fun i => (i, getattr obj i, default VNone (Dict.get from_row i))) <$> diff.

(** [full_clean] and the constraints of the database accept the
    instance. *)
Definition passes (d : db) (obj : instance) : Prop :=
  full_clean d obj = None /\ db_constraint d obj = None.

(** [account(self, obj, is_new, from_row=None)] *)
Definition account (obj : instance) (is_new : bool)
    (from_row : option (Dict.t value)) (w : world) : outcome instance :=
  let s := self w in
  let model_name := i_model obj in
  let obj := add_change_record obj (audit_entry s) in
  obind
    (if is_new then
       clean_and_save obj (with_heap (counter_incr (new s) model_name) w)
     else
       match from_row with
       | Some from_row =>
           let '(consistent, diff) := compare obj from_row in
           match diff with
           | [] => Done obj w
           | _ =>
               let w1 :=
                 if consistent
                 then with_heap (counter_incr (added s) model_name) w
                 else with_heap
                        (deflist_append (changed s) model_name
                           ((i_model obj, i_pk obj), triples obj from_row diff))
                        w in
               if consistent || can_overwrite s
               then clean_and_save (setattrs obj from_row) w1
               else Done obj w1
           end
       | None => Done obj w
       end)
    (fun obj w' =>
       Done obj (with_self (fun s' => set_rec (Dict.set (rec s') model_name (ref obj)) s') w')).

(** [get_from_row(self, *keys)] *)
Definition get_from_row (keys : list string) (s : t) : Dict.t string :=
  foldl (fun ret i =>
           match Dict.get (row s) i with
           | Some v => Dict.set ret i v
           | None => ret
           end)
        [] keys.

Context `{Subclass}.

(** [non_empty(self, value)] *)
Definition non_empty (value : string) : bool :=
  forallb (fun i => match i with
                    | MPattern m => negb (m value)
                    | MStr s => negb (bool_decide (value = s))
                    end) missing_data
  && negb (bool_decide (decode_blank value = EmptyString)).

(** The dictionary assigned to [self.row]. *)
Definition normalize (cols : list string) (row : list string) : Dict.t string :=
  let valid_cols := snd <$> COLS in
  Dict.of_pairs
    (List.filter (fun kv => non_empty kv.2 && bool_decide (kv.1 ∈ valid_cols))
       (zip cols row)).

(** The handlers catch [ValidationError], [IntegrityError] and
    [UserDataError]. *)
Definition user_error (c : exn_class) : bool :=
  match c with
  | ValidationError | IntegrityError | UserDataError => true
  | _ => false
  end.

(** ["at line {}: {}, current row:\n{}".format(linenum, msg, row)] *)
Definition at_line (s : t) (msg : string) : string :=
  "at line " +:+ pretty (linenum s) +:+ ": " +:+ msg
  +:+ ", current row:" +:+ Text.nl +:+ str_dict (row s).

(** The two entries that the block below emits:
    ["skipping row: at line {}: {} ({})"] and
    ["    (and for next {} lines)"]. *)
Definition skipping_row (first_line : nat) (msg err : string) : string :=
  "skipping row: at line " +:+ pretty first_line +:+ ": " +:+ msg
  +:+ " (" +:+ err +:+ ")".

Definition and_for_next (n : nat) : string :=
  "    (and for next " +:+ pretty n +:+ " lines)".

(** The block "manage repeated warnings" of [process_line]. *)
Definition manage_warning (err_name msg : string) (s : t) : t :=
  match last_warning s with
  | None => set_last_warning (Some (err_name, msg, linenum s, linenum s)) s
  | Some (last_err, last_msg, first_line, last_line) =>
      if bool_decide (msg = last_msg) && bool_decide (last_line + 1 = linenum s)
      then set_last_warning (Some (last_err, msg, first_line, linenum s)) s
      else
        let w1 := warnings s ++ [skipping_row first_line last_msg last_err] in
        let w2 := if bool_decide (last_line = first_line) then w1
                  else w1 ++ [and_for_next (last_line - first_line)] in
        set_last_warning (Some (err_name, msg, linenum s, linenum s))
          (set_warnings w2 s)
  end.

(** The first statements of [process_line]: the line number advances,
    the line is split and stripped, [self.row] and [self.rec] are set.
    [None] stands for the [ValueError] of [split]. *)
Definition read_line (line : string) (s : t) : option t :=
  let s1 := set_linenum (linenum s + 1) s in
  match Text.split (strip line) (sep s1) with
  | None => None
  | Some fields =>
      Some (set_rec [] (set_row (normalize (cols s1) (strip <$> fields)) s1))
  end.

(** The two [except] clauses of [process_line]; [new_], [added_] and
    [changed_] are the local variables of the "backup". *)
Definition on_error (new_ added_ changed_ : nat) (e : exn) (w : world)
  : outcome unit :=
  let s := self w in
  if user_error (exn_type e) then
    if negb (warn_on_error s) then
      Raised (Exn (exn_type e) (at_line s (exn_msg e))) w
    else
      let s := manage_warning (type_name (exn_type e)) (exn_msg e) s in
      let s := set_changed changed_ (set_added added_ (set_new new_ s)) in
      Done () (with_self (fun _ => set_count (count s + 1) s) w)
  else
    Raised (Exn (exn_type e) (at_line s (exn_msg e))) w.

(** [process_line(self, line)] for a line of text. *)
Definition process_line (line : string) (w : world) : outcome unit :=
  match read_line line (self w) with
  | None =>
      Raised (Exn ValueError "empty separator")
             (with_self (set_linenum (linenum (self w) + 1)) w)
  | Some s =>
      let new_ := new s in
      let added_ := added s in
      let changed_ := changed s in
      match atomic process_row (with_self (fun _ => s) w) with
      | Done _ w' => Done () (with_self (fun s => set_count (count s + 1) s) w')
      | Raised e w' => on_error new_ added_ changed_ e w'
      end
  end.

(** [for i in file: self.process_line(i)]; on a raise, the line [i] at
    which the loop stopped is returned as well. *)
Fixpoint process_lines (lines : list string) (w : world)
  : outcome unit * option string :=
  match lines with
  | [] => (Done () w, None)
  | i :: rest =>
      match process_line i w with
      | Done _ w' => process_lines rest w'
      | Raised e w' => (Raised e w', Some i)
      end
  end.

(** The dictionary returned by [process_file]; the counters are read
    through their references. *)
Record stats := Stats {
  st_count : nat;
  st_new : gmap string nat;
  st_added : gmap string nat;
  st_changed : gmap string (list change);
  st_ignored : list string;
  st_warnings : list string;
  st_dry_run : bool;
  st_overwrite : bool;
}.

Definition report (w : world) : stats :=
  let s := self w in
  Stats (count s) (counter_at (heap_of w) (new s))
        (counter_at (heap_of w) (added s))
        (deflist_at (heap_of w) (changed s))
        (ignored_columns s) (warnings s) (dry_run s) (can_overwrite s).

(** The body of the outer [with transaction.atomic():]. *)
Definition run_lines (lines : list string) (w : world) : outcome unit :=
  match (process_lines lines w).1 with
  | Done _ w' =>
      if dry_run (self w') then Raised (Exn DryRunRollback EmptyString) w'
      else Done () w'
  | Raised e w' => Raised e w'
  end.

(** The line named by the [RuntimeError] of [process_file]. *)
Definition failed_line (lines : list string) (w : world) : string :=
  default EmptyString (process_lines lines w).2.

(** [process_file(self, file)] for a file object with the given name and
    remaining lines: the value returned or the exception raised, and the
    world left behind. *)
Definition process_file (name : string) (lines : list string) (w : world)
  : result stats * world :=
  let w0 := with_self (fun s => set_last_warning None
                                 (set_linenum 1 (set_file name s))) w in
  match atomic (run_lines lines) w0 with
  | Done _ w' => (Ok (report w'), w')
  | Raised e w' =>
      match exn_type e with
      | DryRunRollback => (Ok (report w'), w')
      | UserDataError => (Error e, w')
      | _ => (Error (Exn RuntimeError
                       ("Failed processing line:" +:+ Text.nl +:+ failed_line lines w0)),
              w')
      end
  end.

(** The empty string counts as missing, as it does with the default
    [missing_data]. *)
Definition blank_is_missing : Prop := non_empty EmptyString = false.

(** *** What the driver expects of [process_row] *)

Definition omap_world {A} (f : world -> world) (m : outcome A) : outcome A :=
  match m with
  | Done a w => Done a (f w)
  | Raised e w => Raised e (f w)
  end.

(** [process_row] assigns no attribute of the loader other than
    [self.row] and [self.rec]. *)
Definition assigns_row_and_rec_only : Prop :=
  forall w, exists r c,
    self (final (process_row w)) = set_rec c (set_row r (self w)).

(** [process_row] neither reads nor assigns [self.dry_run]. *)
Definition dry_run_blind : Prop :=
  forall b w,
    process_row (with_self (set_dry_run b) w)
    = omap_world (with_self (set_dry_run b)) (process_row w).

(** [process_row] does not raise [DryRunRollback]. *)
Definition no_rollback_request : Prop :=
  forall w e w', process_row w = Raised e w' -> exn_type e <> DryRunRollback.

(** The line is read and its row fails with a caught error of the given
    class and text while warnings are on. *)
Definition fails_with (line : string) (w : world) (c : exn_class) (msg : string)
  : Prop :=
  exists s w',
    read_line line (self w) = Some s
    /\ atomic process_row (with_self (fun _ => s) w) = Raised (Exn c msg) w'
    /\ user_error c = true
    /\ warn_on_error (self w') = true.

(** Every line of the list, processed in turn from [w], fails with the
    text [msg]; the classes of the errors are collected. *)
Fixpoint all_fail (lines : list string) (msg : string) (w : world)
  : list exn_class -> Prop :=
  match lines with
  | [] => fun cs => cs = []
  | l :: rest => fun cs =>
      match cs with
      | [] => False
      | c :: cs' =>
          fails_with l w c msg
          /\ all_fail rest msg (final (process_line l w)) cs'
      end
  end.

(** Every line of the list, processed in turn from [w], is read and its
    row is processed without error. *)
Fixpoint all_pass (lines : list string) (w : world) : Prop :=
  match lines with
  | [] => True
  | l :: rest =>
      (exists s w', read_line l (self w) = Some s
                    /\ process_row (with_self (fun _ => s) w) = Done () w')
      /\ all_pass rest (final (process_line l w))
  end.

(** The statistics that the two modes of a run are compared on. *)
Definition same_statistics (a b : result stats) : Prop :=
  match a, b with
  | Ok x, Ok y =>
      st_count x = st_count y /\ st_new x = st_new y
      /\ st_added x = st_added y /\ st_changed x = st_changed y
      /\ st_ignored x = st_ignored y /\ st_warnings x = st_warnings y
  | Error e, Error e' => e = e'
  | _, _ => False
  end.

End methods.

End AbstractLoader.

(** ** [GeneralLoader] (mibios/load.py) *)

Module GeneralLoader.
Import Store AbstractLoader.

(** What the loader asks of the application registry, of the field
    metadata and of the data set, none of which is part of the loader:
    - [get_model k]: the model class reached by the accessor [k], [None]
      where [GeneralLoader.get_model] raises [LookupError];
    - [many_to_many model f]: [model._meta.get_field(f).many_to_many],
      [None] where the field does not exist;
    - [natural_error model v]: the text of the [NaturalKeyLookupError]
      that a lookup by the natural key [v] raises, if it does;
    - [parse_fun a]: the method [parse_a] of the data set, if any, which
      returns an object or raises;
    - [str_values], [describe]: the text of a dictionary of values and of
      the state printed by the [RuntimeError] of [process_row]. *)
Class Registry := {
  cols_of : list (string * string);
  missing_values : list AbstractLoader.missing;
  get_model : list string -> option string;
  many_to_many : string -> string -> option bool;
  natural_error : string -> value -> option string;
  parse_fun : string -> option (string -> result value);
  str_values : Dict.t value -> string;
  describe : list string -> value -> string;
}.

(** Modelled from the spec: [DeepRecord] (mibios/utils.py) is not part
    of the sources at hand.  It is the working record accumulator of
    section 3: a dictionary of dictionaries addressed by paths, the keys
    of a path being joined by ["__"]; [items(leaves_first=True)] visits
    every node after the nodes below it (section 9, "process leaves
    before roots"). *)
Module DeepRecord.

Definition t := Dict.t value.

(** The path of an accessor: [k.split("__")]. *)
Definition path_of (k : string) : list string :=
  Text.split_go "__" k 0 EmptyString.

(** [rec[path] = v], creating the dictionaries on the way. *)
Fixpoint set (d : t) (path : list string) (v : value) : t :=
  match path with
  | [] => d
  | [k] => Dict.set d k v
  | k :: rest =>
      let sub := match Dict.get d k with
                 | Some (VDict items) => items
                 | _ => []
                 end in
      Dict.set d k (VDict (set sub rest v))
  end.

(** The node at a path, if there is one. *)
Fixpoint get (d : t) (path : list string) : option value :=
  match path with
  | [] => Some (VDict d)
  | k :: rest =>
      match Dict.get d k with
      | Some v =>
          match rest, v with
          | [], _ => Some v
          | _, VDict items => get items rest
          | _, _ => None
          end
      | None => None
      end
  end.

(** [rec.update( **v)] *)
Definition update (d : t) (v : Dict.t value) : t :=
  foldl (fun d kv => set d (path_of kv.1) kv.2) d v.

(** The paths of the nodes below [v], children before parents. *)
Fixpoint paths_below (prefix : list string) (v : value) : list (list string) :=
  match v with
  | VDict items =>
      (fix go (items : list (string * value)) : list (list string) :=
         match items with
         | [] => []
         | (k, c) :: r =>
             paths_below (prefix ++ [k]) c ++ [prefix ++ [k]] ++ go r
         end) items
  | _ => []
  end.

(** The keys yielded by [items(leaves_first=True)]. *)
Definition paths (d : t) : list (list string) := paths_below [] (VDict d).

End DeepRecord.

Section methods.
Context `{Python} `{Models} `{Registry}.

(** [row_with_missing_columns(self)] *)
Definition row_with_missing_columns (s : AbstractLoader.t) : Dict.t string :=
  foldl (fun row ca =>
           if Dict.mem row ca.2 then row else Dict.set row ca.2 EmptyString)
        (row s) cols_of.

(** [accessor.partition("__")]: prefix and rest *)
Definition partition (accessor : string) : string * string :=
  match DeepRecord.path_of accessor with
  | [] => (EmptyString, EmptyString)
  | pref :: rest => (pref, Text.join "__" rest)
  end.

(** [parse_value(self, accessor, value)].  In the handler of a failed
    parse the loop over [COLS] binds [cols], not [col], when it finds the
    accessor, so that formatting the message raises
    [UnboundLocalError]; [col] is bound only when the loop finds
    nothing. *)
Definition parse_value (accessor val : string) (w : world) : outcome value :=
  let '(pref, a) := partition accessor in
  match parse_fun a with
  | None => Done (VStr val) w
  | Some f =>
      match f val with
      | Ok (VDict items) =>
          Done (VDict (Dict.of_pairs
                         ((fun kv => (pref +:+ "__" +:+ kv.1, kv.2)) <$> items))) w
      | Ok ret => Done ret w
      | Error e =>
          if bool_decide (accessor ∈ (snd <$> cols_of)) then
            Raised (Exn UnboundLocalError
                      "local variable 'col' referenced before assignment") w
          else
            Raised (Exn UserDataError
                      ("Failed parsing value " +:+ Text.dq +:+ val +:+ Text.dq
                       +:+ " in column ??: " +:+ type_name (exn_type e)
                       +:+ ":" +:+ exn_msg e)) w
      end
  end.

(** The first loop of [process_row]: the record of the row. *)
Fixpoint build_rec (row : Dict.t string) (w : world) : outcome unit :=
  match row with
  | [] => Done () w
  | (k, v) :: rest =>
      obind (parse_value k v w) (fun v w =>
        match v with
        | VNone => build_rec rest w
        | VDict items =>
            build_rec rest
              (with_self (fun s => set_rec (DeepRecord.update (rec s) items) s) w)
        | _ =>
            build_rec rest
              (with_self (fun s => set_rec
                                     (DeepRecord.set (rec s) (DeepRecord.path_of k) v) s) w)
        end)
  end.

(** "separate identifiers from other fields": each of [natural], [id],
    [name] that is present is popped and becomes the natural key. *)
Definition pop_ids (id_arg data : Dict.t value) : Dict.t value * Dict.t value :=
  foldl (fun acc i =>
           match Dict.get acc.2 i with
           | Some v => (Dict.set acc.1 "natural" v, Dict.remove acc.2 i)
           | None => acc
           end)
        (id_arg, data) ["natural"; "id"; "name"].

(** The dictionary [m2ms]; [None] where a key is not a field of the
    model. *)
Fixpoint m2m_fields (model : string) (data : Dict.t value)
  : option (Dict.t value) :=
  match data with
  | [] => Some []
  | (k, v) :: rest =>
      match many_to_many model k, m2m_fields model rest with
      | Some b, Some r => Some (if b then (k, v) :: r else r)
      | _, _ => None
      end
  end.

(** [for _k, _v in m2ms.items(): getattr(obj, _k).add(_v)] *)
Fixpoint add_m2ms (obj : instance) (m2ms : Dict.t value) (w : world)
  : outcome unit :=
  match m2ms with
  | [] => Done () w
  | (k, v) :: rest =>
      match m2m_add (db_of w) obj k v with
      | Ok d => add_m2ms obj rest (with_db d w)
      | Error e => Raised e w
      end
  end.

(** The handlers that close the body of the second loop: the three user
    errors pass, anything else becomes a [RuntimeError]. *)
Definition guard {A} (k : list string) (v : value) (m : outcome A) : outcome A :=
  match m with
  | Done a w => Done a w
  | Raised e w =>
      if user_error (exn_type e) then Raised e w
      else Raised (Exn RuntimeError (describe k v)) w
  end.

(** The first statements of the body of the second loop: the
    identifying keys [id_arg], the other proposed values [data] and the
    many-to-many values [m2ms] of a node [v] of the model class [model].
    The branch for an empty [v] formats [self.template], an attribute
    that no loader has, so that [AttributeError] is raised in place of
    the [RuntimeError] under construction. *)
Definition split_fields (model : string) (v : value)
  : result (Dict.t value * Dict.t value * Dict.t value) :=
  match (match v with
         | VDict items => Some (Dict.of_pairs items, [])
         | _ => if truthy v then Some ([], [("natural", v)]) else None
         end) with
  | None =>
      Error (Exn AttributeError
               "'GeneralLoader' object has no attribute 'template'")
  | Some (data, id_arg) =>
      let '(id_arg, data) := pop_ids id_arg data in
      match m2m_fields model data with
      | None => Error (Exn FieldDoesNotExist EmptyString)
      | Some m2ms =>
          let data := foldl (fun d i => Dict.remove d i) data (Dict.keys m2ms) in
          match id_arg with
          | [] => Ok (data, [], m2ms)
          | _ => Ok (id_arg, data, m2ms)
          end
      end
  end.

(** [model.objects.get( **id_arg)], where a natural key that does not
    parse raises [NaturalKeyLookupError], re-raised as [UserDataError]. *)
Definition find (model : string) (id_arg : Dict.t value) (w : world)
  : outcome lookup :=
  match Dict.get id_arg "natural" with
  | Some n =>
      match natural_error model n with
      | Some msg => Raised (Exn UserDataError msg) w
      | None => Done (get (db_of w) model id_arg) w
      end
  | None => Done (get (db_of w) model id_arg) w
  end.

(** ["{} is not specific enough for {}".format(id_arg, model_name)] *)
Definition not_specific (id_arg : Dict.t value) (model : string) : string :=
  str_values id_arg +:+ " is not specific enough for " +:+ model.

(** The body of the second loop, for a key [k] with value [v] whose
    accessor names the model class [model]. *)
Definition reconcile (k : list string) (v : value) (model : string) (w : world)
  : outcome unit :=
  match split_fields model v with
  | Error e => Raised e w
  | Ok (id_arg, data, m2ms) =>
      obind (find model id_arg w) (fun r w =>
        obind
          (match r with
           | Found obj => Done (obj, false) w
           | DoesNotExist => Done (construct model (id_arg ++ data), true) w
           | MultipleObjectsReturned =>
               Raised (Exn UserDataError (not_specific id_arg model)) w
           end)
          (fun on w =>
             obind (account on.1 on.2 (Some data) w) (fun obj w =>
               obind (add_m2ms obj m2ms w) (fun _ w =>
                 Done () (with_self
                            (fun s => set_rec (DeepRecord.set (rec s) k (ref obj)) s)
                            w)))))
  end.

(** One pass of the second loop; a key that is not a model is a field
    and is skipped, as is a key that is no longer in the record. *)
Definition visit (k : list string) (w : world) : outcome unit :=
  match DeepRecord.get (rec (self w)) k with
  | None => Done () w
  | Some v =>
      match get_model k with
      | None => Done () w
      | Some model => guard k v (reconcile k v model w)
      end
  end.

Fixpoint visit_all (ks : list (list string)) (w : world) : outcome unit :=
  match ks with
  | [] => Done () w
  | k :: rest => obind (visit k w) (fun _ w => visit_all rest w)
  end.

(** The parsing methods of the data set return [None] or values that hold
    data throughout. *)
Definition parses_solid : Prop :=
  forall a f s v, parse_fun a = Some f -> f s = Ok v ->
                  v = VNone \/ solid v = true.

(** [GeneralLoader.process_row(self)] *)
Definition process_row (w : world) : outcome unit :=
  obind (build_rec (row (self w)) (with_self (set_rec []) w)) (fun _ w =>
    visit_all (DeepRecord.paths (rec (self w))) w).

(** The loader class for a registry. *)
#[export] Instance subclass : Subclass := {|
  AbstractLoader.COLS := cols_of;
  AbstractLoader.missing_data := missing_values;
  AbstractLoader.process_row := process_row;
|}.

End methods.

End GeneralLoader.

(** ** A small installation *)

(** A registry with three models: [sample] (fields [name], [site],
    [status], a reference [participant] and a many-to-many [note]),
    [participant] and [note]; no data set, so values are taken as they
    are; validation rejects the status [invalid]. *)
Module Demo.
Import GeneralLoader Store AbstractLoader.

#[export] Instance python : Python := {|
  casefold := Ascii_text.casefold;
  strip := Ascii_text.strip;
  str_dict := Ascii_text.str_dict;
  argv := ["manage.py"; "load"];
|}.

#[export] Instance models : Models := {|
  decode_blank := fun s => s;
  full_clean := fun _ obj =>
    if value_eqb (getattr obj "status") (VStr "invalid")
    then Some "{'status': ['not a valid choice']}" else None;
  db_constraint := fun _ _ => None;
|}.

Definition str_value (v : value) : string :=
  match v with
  | VNone => "None"
  | VStr s => "'" +:+ s +:+ "'"
  | VObj m _ => "<" +:+ m +:+ ">"
  | VDict _ => "{...}"
  end.

#[export] Instance registry : GeneralLoader.Registry := {|
  GeneralLoader.cols_of :=
    [("Sample", "sample__name"); ("Site", "sample__site");
     ("Status", "sample__status"); ("Participant", "sample__participant");
     ("Note", "sample__note")];
  GeneralLoader.missing_values := [MStr EmptyString];
  GeneralLoader.get_model := fun k =>
    if decide (k = ["sample"]) then Some "sample"
    else if decide (k = ["sample"; "participant"]) then Some "participant"
    else if decide (k = ["sample"; "note"]) then Some "note"
    else None;
  GeneralLoader.many_to_many := fun m f =>
    Some (bool_decide (m = "sample") && bool_decide (f = "note"));
  GeneralLoader.natural_error := fun _ v =>
    if value_eqb v (VStr "?") then Some "natural key does not parse" else None;
  GeneralLoader.parse_fun := fun _ => None;
  GeneralLoader.str_values := fun d =>
    "{" +:+ Text.join ", " ((fun kv => "'" +:+ kv.1 +:+ "': " +:+ str_value kv.2) <$> d)
    +:+ "}";
  GeneralLoader.describe := fun k _ => "k=" +:+ Text.join "__" k;
|}.

(** A loader for the given header line, with the keyword arguments
    [can_overwrite], [warn_on_error] and [dry_run], on a database. *)
Definition loader (colnames : list string)
    (can_overwrite warn_on_error dry_run : bool) (d : db) : world :=
  let lh := __init__ colnames Text.tab can_overwrite warn_on_error false
                     dry_run (Some "curator") in
  World lh.1 lh.2 d.

(** A line of tab-separated fields. *)
Definition line (fields : list string) : string :=
  Text.join Text.tab fields +:+ Text.nl.

Definition header : list string := ["Sample"; "Site"; "Status"; "Participant"].

(** A row that loads, rows that fail validation with one and the same
    text, and a row whose participant key does not parse. *)
Definition good : string := line ["S1"; "lake"; "ok"; "P1"].

Definition invalid (sample : string) : string :=
  line [sample; EmptyString; "invalid"; "P2"].

Definition unparsable : string := line ["S9"; EmptyString; "ok"; "?"].

Definition five_invalid : list string :=
  [invalid "S2"; invalid "S3"; invalid "S4"; invalid "S5"; invalid "S6"].

(** The text of the validation error of [invalid]. *)
Definition not_valid : string := "{'status': ['not a valid choice']}".

(** A database in which the natural key [P1] names two participants. *)
Definition two_participants : db :=
  DB [Entity "participant" 1 {[ "natural" := VStr "P1" ]};
      Entity "participant" 2 {[ "natural" := VStr "P1" ]}] [] [].




(** The world in which [process_row] runs for a line. *)
Definition at_row (l : string) (w : world) : world :=
  match read_line l (self w) with
  | Some s => with_self (fun _ => s) w
  | None => w
  end.

#[export] Instance builtins : Builtins := {|
  lower := Ascii_text.casefold;
  repr := fun s => "'" +:+ s +:+ "'";
|}.

End Demo.

(** The installation of [Demo] with a data set that parses the status of
    a sample and knows only the status [ok]. *)
Module Checked.
Import GeneralLoader Store AbstractLoader.

Definition parse_status (s : string) : result value :=
  if decide (s = "ok") then Ok (VStr s)
  else Error (Exn ValueError ("unknown status: " +:+ s)).

Definition registry : GeneralLoader.Registry := {|
  GeneralLoader.cols_of := GeneralLoader.cols_of (Registry := Demo.registry);
  GeneralLoader.missing_values := GeneralLoader.missing_values (Registry := Demo.registry);
  GeneralLoader.get_model := GeneralLoader.get_model (Registry := Demo.registry);
  GeneralLoader.many_to_many := GeneralLoader.many_to_many (Registry := Demo.registry);
  GeneralLoader.natural_error := GeneralLoader.natural_error (Registry := Demo.registry);
  GeneralLoader.parse_fun := fun a =>
    if decide (a = "status") then Some parse_status else None;
  GeneralLoader.str_values := GeneralLoader.str_values (Registry := Demo.registry);
  GeneralLoader.describe := GeneralLoader.describe (Registry := Demo.registry);
|}.

(** A loader of this installation, with warnings on. *)
Definition loader (colnames : list string) (d : db) : world :=
  let lh := __init__ (H := Demo.python)
              (H0 := GeneralLoader.subclass (H := Demo.python) (H0 := Demo.models)
                       (H1 := registry))
              colnames Text.tab true true false false (Some "curator") in
  World lh.1 lh.2 d.

End Checked.

(** * Properties *)

(** ** [CSV_Spec] *)

Module CSV_SpecFacts.
Import CSV_Spec.

Lemma setup_loop_app a l1 l2 :
  setup_loop a (l1 ++ l2) = bind (setup_loop a l1) (fun a' => setup_loop a' l2).
Proof.
  revert a. induction l1 as [|d l1 IH]; intros a; simpl; [done|].
  destruct (setup_row a d); simpl; auto.
Qed.

Lemma setup_row_ok a d :
  well_formed d = true -> exists a', setup_row a d = Ok a'.
Proof.
  destruct d as [[|c [|k conv]]|k]; simpl; try done.
  - destruct (is_None k); simpl; [eauto|].
    destruct conv as [|f conv]; [eauto|].
    intros ->. eauto.
  - destruct (is_None k); eauto.
Qed.

Lemma setup_row_error a d :
  well_formed d = false ->
  exists msg, setup_row a d = Error (Exn ValueError msg).
Proof.
  destruct d as [[|c [|k conv]]|k]; simpl; try done; eauto.
  destruct (is_None k); simpl; [done|].
  destruct conv as [|f conv]; [done|].
  intros ->. eauto.
Qed.

Lemma setup_loop_ok l : forall a,
  forallb well_formed l = true -> exists a', setup_loop a l = Ok a'.
Proof.
  induction l as [|d l IH]; intros a H; simpl in *; [eauto|].
  apply andb_prop in H as [Hd Hl].
  destruct (setup_row_ok a d Hd) as [a' ->]. simpl. auto.
Qed.

Lemma setup_loop_error l : forall a,
  forallb well_formed l = false ->
  exists msg, setup_loop a l = Error (Exn ValueError msg).
Proof.
  induction l as [|d l IH]; intros a H; simpl in *; [done|].
  destruct (well_formed d) eqn:Hd; simpl in H.
  - destruct (setup_row_ok a d Hd) as [a' ->]. simpl. auto.
  - destruct (setup_row_error a d Hd) as [msg ->]. simpl. eauto.
Qed.

Lemma cut_keys_nil_row {A} ks : cut_keys ks (@nil A) = [].
Proof. by destruct ks. Qed.

Lemma cut_keys_cons {A} k ks (v : A) row :
  cut_keys (k :: ks) (v :: row)
  = (if is_None k then [] else [v]) ++ cut_keys ks row.
Proof. reflexivity. Qed.

Lemma omap_seq_S {B} (f : nat -> option B) n : forall j,
  omap f (seq (S j) n) = omap (fun i => f (S i)) (seq j n).
Proof.
  induction n as [|n IH]; intros j; simpl; [done|].
  rewrite IH. reflexivity.
Qed.

Lemma cut_by_position_cons {A} k ks (v : A) row :
  cut_by_position (k :: ks) (v :: row)
  = (if is_None k then [] else [v]) ++ cut_by_position ks row.
Proof.
  unfold cut_by_position. change (seq 0 (length (k :: ks)))
    with (0 :: seq 1 (length ks)).
  cbn [omap list_omap]. rewrite omap_seq_S.
  cbn [lookup list_lookup]. destruct (is_None k); reflexivity.
Qed.

Lemma cut_by_position_nil_row {A} ks : cut_by_position ks (@nil A) = [].
Proof.
  unfold cut_by_position. generalize (seq 0 (length ks)).
  induction l as [|i l IH]; [done|].
  cbn [omap list_omap]. rewrite IH. by destruct (ks !! i).
Qed.

Lemma cut_keys_by_position {A} ks : forall row : list A,
  cut_keys ks row = cut_by_position ks row.
Proof.
  induction ks as [|k ks IH]; intros [|v row].
  - reflexivity.
  - reflexivity.
  - by rewrite cut_keys_nil_row, cut_by_position_nil_row.
  - by rewrite cut_keys_cons, cut_by_position_cons, IH.
Qed.

Lemma zip_take_l {A B} (l : list A) : forall k : list B,
  zip (take (length k) l) k = zip l k.
Proof.
  induction l as [|a l IH]; intros [|b k]; simpl; try done.
  by rewrite IH.
Qed.

Lemma zip_take_r {A B} (l : list A) : forall k : list B,
  zip l (take (length l) k) = zip l k.
Proof.
  induction l as [|a l IH]; intros [|b k]; simpl; try done.
  by rewrite IH.
Qed.

Lemma cut_keys_length {A} ks : forall row : list A,
  length (cut_keys ks row) <= length row.
Proof.
  induction ks as [|k ks IH]; intros [|v row]; simpl; try lia.
  rewrite cut_keys_cons, length_app. specialize (IH row).
  destruct (is_None k); simpl; lia.
Qed.

(** C10.  [cut] yields exactly the values at the positions whose declared
    key is not [None], in declaration order.  A row shorter than the
    declaration is cut against its first [len(row)] declared positions
    only, and the fields of a longer row beyond the declared positions
    do not contribute; [cut] is total, so it raises in neither case. *)
Theorem cut_positions {A} (self : t) (row : list A) :
  cut self row = cut_by_position (all_keys self) row
  /\ cut self row = cut_keys (take (length row) (all_keys self)) row
  /\ cut self (take (length (all_keys self)) row) = cut self row
  /\ length (cut self row) <= length row.
Proof.
  unfold cut, cut_keys. repeat split.
  - apply cut_keys_by_position.
  - by rewrite zip_take_l.
  - by rewrite zip_take_r.
  - apply cut_keys_length.
Qed.

(** C8 as stated fails: a non-empty declaration list whose converter is
    not callable is rejected. *)
Lemma init_nonempty_may_fail :
  ~ (forall column_specs, column_specs <> [] ->
       exists s, __init__ column_specs = Ok s).
Proof.
  intros H.
  destruct (H [Tuple [PStr "h"; PStr "k"; PInt 5]]) as [s Hs]; [done|].
  vm_compute in Hs. discriminate.
Qed.

(** C8, amended.  The empty declaration list is rejected with a
    [ValueError]; a non-empty list is accepted exactly when every tuple
    declaration has at least a header and a key and, for a key other
    than [None], a converter that is callable when one is given; every
    rejection is a [ValueError]. *)
Theorem init_empty_or_malformed (column_specs : list column_spec) :
  __init__ [] = Error (Exn ValueError "at least one column needs to be declared")
  /\ (column_specs <> [] -> forallb well_formed column_specs = true ->
      exists s, __init__ column_specs = Ok s /\ _spec s = column_specs)
  /\ (forallb well_formed column_specs = false ->
      exists msg, __init__ column_specs = Error (Exn ValueError msg)).
Proof.
  split; [reflexivity|]. split.
  - intros Hne Hwf. destruct column_specs as [|d l]; [done|].
    unfold __init__, setup.
    destruct (setup_loop_ok (d :: l) acc0 Hwf) as [a ->]. simpl. eauto.
  - intros Hwf. destruct column_specs as [|d l]; [done|].
    unfold __init__, setup.
    destruct (setup_loop_error (d :: l) acc0 Hwf) as [msg ->]. simpl. eauto.
Qed.

Lemma init_empty_or_malformed_witness :
  exists s, __init__ [Tuple [PStr "Sample"; PStr "sample_id"]; Plain PNone] = Ok s
            /\ _spec s = [Tuple [PStr "Sample"; PStr "sample_id"]; Plain PNone].
Proof.
  apply (init_empty_or_malformed
           [Tuple [PStr "Sample"; PStr "sample_id"]; Plain PNone]);
    [done | reflexivity].
Defined.

End CSV_SpecFacts.

(** ** The batch driver *)

Module DriverFacts.
Import Store AbstractLoader.

Section driver.
Context `{Python} `{Models} `{Subclass}.

Lemma final_atomic_self {A} (f : world -> outcome A) w :
  self (final (atomic f w)) = self (final (f w)).
Proof. unfold atomic. by destruct (f w). Qed.

Lemma atomic_raised_db {A} (f : world -> outcome A) w e w' :
  atomic f w = Raised e w' -> db_of w' = db_of w.
Proof. unfold atomic. destruct (f w); intros [= <- <-]; reflexivity. Qed.

Lemma atomic_done {A} (f : world -> outcome A) w a w' :
  atomic f w = Done a w' <-> f w = Done a w'.
Proof. unfold atomic. destruct (f w); split; congruence. Qed.

Lemma read_line_shape line s s' :
  read_line line s = Some s' ->
  exists r, s' = set_rec [] (set_row r (set_linenum (linenum s + 1) s)).
Proof.
  unfold read_line. destruct (Text.split _ _); intros [= <-]; eauto.
Qed.

(** The loader object after the row of a line has been processed. *)
Lemma row_processed_self (K : assigns_row_and_rec_only) line w s :
  read_line line (self w) = Some s ->
  exists r c,
    self (final (atomic process_row (with_self (fun _ => s) w)))
    = set_rec c (set_row r (set_linenum (linenum (self w) + 1) (self w))).
Proof.
  intros Hs. destruct (read_line_shape _ _ _ Hs) as [r0 ->].
  rewrite final_atomic_self.
  destruct (K (with_self (fun _ => set_rec [] (set_row r0
              (set_linenum (linenum (self w) + 1) (self w)))) w))
    as (r & c & ->).
  exists r, c. reflexivity.
Qed.

Lemma manage_warning_frame err msg s :
  count (manage_warning err msg s) = count s
  /\ linenum (manage_warning err msg s) = linenum s
  /\ dry_run (manage_warning err msg s) = dry_run s
  /\ ignored_columns (manage_warning err msg s) = ignored_columns s.
Proof.
  unfold manage_warning.
  destruct (last_warning s) as [[[[e0 m0] f0] l0]|]; [|done].
  destruct (_ && _); done.
Qed.

(** A line whose row is processed without error. *)
Lemma process_line_passes (K : assigns_row_and_rec_only) l w :
  (exists s w', read_line l (self w) = Some s
                /\ process_row (with_self (fun _ => s) w) = Done () w') ->
  exists w'', process_line l w = Done () w''
    /\ linenum (self w'') = linenum (self w) + 1
    /\ count (self w'') = count (self w) + 1
    /\ warnings (self w'') = warnings (self w)
    /\ last_warning (self w'') = last_warning (self w).
Proof.
  intros (s & w' & Hs & Hrow).
  destruct (row_processed_self K l w s Hs) as (r & c & Hself).
  unfold process_line. rewrite Hs. cbn zeta.
  apply atomic_done in Hrow. rewrite Hrow in *. cbn in Hself.
  eexists. split; [reflexivity|]. cbn. rewrite Hself. done.
Qed.

(** A line whose row fails while warnings are on. *)
Lemma process_line_fails (K : assigns_row_and_rec_only) l w c msg :
  fails_with l w c msg ->
  exists w'', process_line l w = Done () w''
    /\ db_of w'' = db_of w
    /\ linenum (self w'') = linenum (self w) + 1
    /\ count (self w'') = count (self w) + 1
    /\ match last_warning (self w) with
       | None =>
           warnings (self w'') = warnings (self w)
           /\ last_warning (self w'')
              = Some (type_name c, msg, linenum (self w) + 1, linenum (self w) + 1)
       | Some (e0, m0, f0, l0) =>
           if bool_decide (msg = m0) && bool_decide (l0 + 1 = linenum (self w) + 1)
           then warnings (self w'') = warnings (self w)
                /\ last_warning (self w'')
                   = Some (e0, msg, f0, linenum (self w) + 1)
           else warnings (self w'')
                = (if bool_decide (l0 = f0)
                   then warnings (self w) ++ [skipping_row f0 m0 e0]
                   else (warnings (self w) ++ [skipping_row f0 m0 e0])
                        ++ [and_for_next (l0 - f0)])
                /\ last_warning (self w'')
                   = Some (type_name c, msg, linenum (self w) + 1,
                           linenum (self w) + 1)
       end.
Proof.
  intros (s & w' & Hs & Hrow & Hc & Hwarn).
  destruct (row_processed_self K l w s Hs) as (r & c0 & Hself).
  pose proof (atomic_raised_db _ _ _ _ Hrow) as Hdb.
  unfold process_line. rewrite Hs. cbn zeta.
  rewrite Hrow in *. cbn in Hself. unfold on_error. cbn [exn_type exn_msg].
  rewrite Hc, Hwarn. cbn [negb].
  eexists. split; [reflexivity|]. cbn.
  rewrite Hself. unfold manage_warning. cbn.
  destruct (last_warning (self w)) as [[[[e0 m0] f0] l0]|]; [|done].
  destruct (bool_decide (msg = m0) && bool_decide (l0 + 1 = linenum (self w) + 1));
    [done|].
  destruct (bool_decide (l0 = f0)); done.
Qed.

Lemma process_line_raised_type (N : no_rollback_request) l w e w' :
  process_line l w = Raised e w' -> exn_type e <> DryRunRollback.
Proof.
  unfold process_line. destruct (read_line l (self w)) as [s|].
  - cbn zeta. destruct (atomic process_row _) as [[] w0|e0 w0] eqn:Hrow; [done|].
    assert (exn_type e0 <> DryRunRollback) as Hne.
    { unfold atomic in Hrow.
      destruct (process_row _) as [|e1 w1] eqn:Hp; [done|].
      injection Hrow as <- _. eapply N, Hp. }
    unfold on_error. destruct (user_error (exn_type e0)).
    + destruct (negb _); [|done]. by intros [= <- _].
    + by intros [= <- _].
  - by intros [= <- _].
Qed.

Lemma process_line_done_count (K : assigns_row_and_rec_only) l w w' :
  process_line l w = Done () w' -> count (self w') = count (self w) + 1.
Proof.
  unfold process_line. destruct (read_line l (self w)) as [s|] eqn:Hs; [|done].
  destruct (row_processed_self K l w s Hs) as (r & c & Hself).
  cbn zeta. destruct (atomic process_row _) as [[] w0|e0 w0].
  - intros [= <-]. cbn in *. by rewrite Hself.
  - unfold on_error. destruct (user_error _); [|done].
    destruct (negb _); [done|]. intros [= <-]. cbn in *.
    destruct (manage_warning_frame (type_name (exn_type e0)) (exn_msg e0) (self w0))
      as (-> & _). by rewrite Hself.
Qed.

Lemma process_lines_done_count (K : assigns_row_and_rec_only) lines : forall w w',
  (process_lines lines w).1 = Done () w' ->
  count (self w') = count (self w) + length lines.
Proof.
  induction lines as [|l lines IH]; intros w w'; simpl.
  - intros [= <-]. lia.
  - destruct (process_line l w) as [[] w1|e w1] eqn:Hl; [|done].
    intros Hrest. rewrite (IH _ _ Hrest).
    rewrite (process_line_done_count K _ _ _ Hl). lia.
Qed.

Lemma process_lines_raised_type (N : no_rollback_request) lines : forall w e w',
  (process_lines lines w).1 = Raised e w' -> exn_type e <> DryRunRollback.
Proof.
  induction lines as [|l lines IH]; intros w e w'; simpl; [done|].
  destruct (process_line l w) as [[] w1|e1 w1] eqn:Hl.
  - apply IH.
  - intros [= <- _]. eapply process_line_raised_type; eauto.
Qed.

(** C9.  In warn-on-error mode a line whose row fails with a
    [ValidationError], [IntegrityError] or [UserDataError] still
    advances [count], while the database is as it was before the line;
    the [count] of the statistics of a finished run is the number of
    lines read. *)
Theorem count_counts_lines_read
    (K : assigns_row_and_rec_only) (N : no_rollback_request) :
  (forall l w c msg,
     fails_with l w c msg ->
     exists w'', process_line l w = Done () w''
       /\ count (self w'') = count (self w) + 1
       /\ db_of w'' = db_of w)
  /\ (forall name lines w st w',
        process_file name lines w = (Ok st, w') ->
        st_count st = count (self w) + length lines).
Proof.
  split.
  - intros l w c msg Hf.
    destruct (process_line_fails K l w c msg Hf) as (w'' & ? & ? & ? & ? & _).
    eauto.
  - intros name lines w st w'. unfold process_file.
    set (w0 := with_self _ w).
    assert (count (self w0) = count (self w)) as <- by reflexivity.
    unfold atomic, run_lines.
    destruct (process_lines lines w0).1 as [[] w1|e w1] eqn:Hl.
    + pose proof (process_lines_done_count K _ _ _ Hl) as Hc.
      destruct (dry_run (self w1)); cbn; intros [= <- _]; exact Hc.
    + pose proof (process_lines_raised_type N _ _ _ _ Hl) as Hne.
      cbn. destruct (exn_type e); try done.
Qed.

Lemma all_fail_pending (K : assigns_row_and_rec_only) msg run :
  forall w cs c0 first,
    all_fail run msg w cs ->
    last_warning (self w) = Some (c0, msg, first, linenum (self w)) ->
    let w1 := final (process_lines run w).1 in
    last_warning (self w1) = Some (c0, msg, first, linenum (self w) + length run)
    /\ warnings (self w1) = warnings (self w)
    /\ linenum (self w1) = linenum (self w) + length run.
Proof.
  induction run as [|l run IH]; intros w cs c0 first Hall Hlast; simpl.
  - rewrite Nat.add_0_r. done.
  - destruct cs as [|c cs]; [done|]. destruct Hall as [Hf Hall].
    destruct (process_line_fails K l w c msg Hf)
      as (w'' & Hl & _ & Hln & _ & Hw).
    rewrite Hl in *. simpl in Hall.
    rewrite Hlast in Hw.
    rewrite !bool_decide_eq_true_2 in Hw by done. simpl in Hw.
    destruct Hw as [Hw Hlast'].
    rewrite <- Hln in Hlast'.
    destruct (IH w'' cs c0 first Hall Hlast') as (-> & -> & ->).
    rewrite Hw, Hln, <- !Nat.add_assoc. done.
Qed.

Lemma all_pass_frame (K : assigns_row_and_rec_only) lines : forall w,
  all_pass lines w ->
  let w1 := final (process_lines lines w).1 in
  last_warning (self w1) = last_warning (self w)
  /\ warnings (self w1) = warnings (self w)
  /\ linenum (self w1) = linenum (self w) + length lines.
Proof.
  induction lines as [|l lines IH]; intros w Hall; simpl.
  - rewrite Nat.add_0_r. done.
  - destruct Hall as [Hp Hall].
    destruct (process_line_passes K l w Hp) as (w'' & Hl & Hln & _ & Hw & Hlast).
    rewrite Hl in *. simpl in Hall.
    destruct (IH w'' Hall) as (-> & -> & ->).
    rewrite Hw, Hlast, Hln, <- !Nat.add_assoc. done.
Qed.

Lemma process_lines_cat l1 l2 : forall w w',
  (process_lines (l1 ++ l2) w).1 = Done () w' ->
  exists w1, (process_lines l1 w).1 = Done () w1
             /\ (process_lines l2 w1).1 = Done () w'.
Proof.
  induction l1 as [|l l1 IH]; intros w w'; cbn [app process_lines].
  - intros Hrest. by exists w.
  - destruct (process_line l w) as [[] w1|e w1]; [apply IH|done].
Qed.

Lemma process_line_done_linenum (K : assigns_row_and_rec_only) l w w' :
  process_line l w = Done () w' -> linenum (self w') = linenum (self w) + 1.
Proof.
  unfold process_line. destruct (read_line l (self w)) as [s|] eqn:Hs; [|done].
  destruct (row_processed_self K l w s Hs) as (r & c & Hself).
  cbn zeta. destruct (atomic process_row _) as [[] w0|e0 w0].
  - intros [= <-]. cbn in *. by rewrite Hself.
  - unfold on_error. destruct (user_error _); [|done].
    destruct (negb _); [done|]. intros [= <-]. cbn in *.
    destruct (manage_warning_frame (type_name (exn_type e0)) (exn_msg e0) (self w0))
      as (_ & -> & _). by rewrite Hself.
Qed.

Lemma process_lines_done_linenum (K : assigns_row_and_rec_only) lines : forall w w',
  (process_lines lines w).1 = Done () w' ->
  linenum (self w') = linenum (self w) + length lines.
Proof.
  induction lines as [|l lines IH]; intros w w'; simpl.
  - intros [= <-]. lia.
  - destruct (process_line l w) as [[] w1|e w1] eqn:Hl; [|done].
    intros Hrest. rewrite (IH _ _ Hrest).
    rewrite (process_line_done_linenum K _ _ _ Hl). lia.
Qed.

(** Entries of [warnings] are only ever appended. *)
Lemma manage_warning_appends err msg s :
  warnings s `prefix_of` warnings (manage_warning err msg s).
Proof.
  unfold manage_warning.
  destruct (last_warning s) as [[[[e0 m0] f0] l0]|]; [|done].
  destruct (_ && _); [done|]. cbn.
  destruct (bool_decide (l0 = f0)).
  - by apply prefix_app_r.
  - rewrite <- app_assoc. by apply prefix_app_r.
Qed.

Lemma process_line_appends (K : assigns_row_and_rec_only) l w w' :
  process_line l w = Done () w' ->
  warnings (self w) `prefix_of` warnings (self w').
Proof.
  unfold process_line. destruct (read_line l (self w)) as [s|] eqn:Hs; [|done].
  destruct (row_processed_self K l w s Hs) as (r & c & Hself).
  cbn zeta. destruct (atomic process_row _) as [[] w0|e0 w0].
  - intros [= <-]. cbn in *. by rewrite Hself.
  - unfold on_error. destruct (user_error _); [|done].
    destruct (negb _); [done|]. intros [= <-]. cbn in *.
    etransitivity; [|apply manage_warning_appends]. by rewrite Hself.
Qed.

Lemma process_lines_appends (K : assigns_row_and_rec_only) lines : forall w w',
  (process_lines lines w).1 = Done () w' ->
  warnings (self w) `prefix_of` warnings (self w').
Proof.
  induction lines as [|l lines IH]; intros w w'; simpl.
  - by intros [= <-].
  - destruct (process_line l w) as [[] w1|e w1] eqn:Hl; [|done].
    intros Hrest. etransitivity; [|by eapply IH].
    by eapply process_line_appends.
Qed.

(** Statistics are returned only when every line has been processed;
    their warnings are those of the loader after the last line. *)
Lemma process_file_returns (N : no_rollback_request) name lines w st w' :
  process_file name lines w = (Ok st, w') ->
  exists w1,
    (process_lines lines
       (with_self (fun s => set_last_warning None (set_linenum 1 (set_file name s))) w)).1
    = Done () w1
    /\ st_warnings st = warnings (self w1).
Proof.
  unfold process_file. set (w0 := with_self _ w). unfold atomic, run_lines.
  destruct (process_lines lines w0).1 as [[] w1|e w1] eqn:Hl.
  - destruct (dry_run (self w1)); cbn; intros [= <- _]; by exists w1.
  - pose proof (process_lines_raised_type N _ _ _ _ Hl) as Hne.
    cbn. destruct (exn_type e); done.
Qed.

(** C4, amended.  In warn-on-error mode, in a file whose statistics are
    returned, let a run of lines that fail with one and the same text
    (the classes of the errors are not compared) begin at a line that
    does not continue the warning held back before it, let any number of
    lines pass after the run, and let then a line fail, with another
    text unless a line has passed in between.
    - The first line of the run adds to [warnings] the entries of the
      warning held back before it, if there is one, and nothing else.
    - The other lines of the run and the lines that pass add nothing.
    - The later failure adds the entry "skipping row" with the number of
      the first line of the run, the text and the class of the first
      error, followed for a run of more than one line by the entry that
      counts the remaining lines; the later failure is itself held back.
    - The warnings of the statistics returned hold these entries, next
      to each other, after the entries present when the run had
      begun. *)
Theorem warnings_coalesce
    (K : assigns_row_and_rec_only) (N : no_rollback_request)
    (name : string) (before : list string) (l0 : string)
    (run between : list string) (next : string) (after : list string)
    (msg msg' : string) (c0 : exn_class) (cs : list exn_class) (c' : exn_class)
    (w : world) (st : stats) (w' : world) :
  let w0 := with_self (fun s => set_last_warning None
                                  (set_linenum 1 (set_file name s))) w in
  let wb := final (process_lines before w0).1 in
  let wa := final (process_line l0 wb) in
  let w1 := final (process_lines run wa).1 in
  let w2 := final (process_lines between w1).1 in
  let w3 := final (process_line next w2) in
  let first := length before + 2 in
  let entries := skipping_row first msg (type_name c0)
                 :: (if run is [] then [] else [and_for_next (length run)]) in
  process_file name (before ++ (l0 :: run) ++ between ++ next :: after) w
  = (Ok st, w') ->
  (forall e m f l, last_warning (self wb) = Some (e, m, f, l) ->
                   m <> msg \/ l <> linenum (self wb)) ->
  all_fail (l0 :: run) msg wb (c0 :: cs) ->
  all_pass between w1 ->
  fails_with next w2 c' msg' ->
  msg' <> msg \/ between <> [] ->
  warnings (self wa)
  = warnings (self wb)
    ++ match last_warning (self wb) with
       | None => []
       | Some (e, m, f, l) =>
           skipping_row f m e
           :: (if decide (l = f) then [] else [and_for_next (l - f)])
       end
  /\ warnings (self w2) = warnings (self wa)
  /\ warnings (self w3) = warnings (self wa) ++ entries
  /\ last_warning (self w3)
     = Some (type_name c', msg', linenum (self w3), linenum (self w3))
  /\ exists rest, st_warnings st = warnings (self wa) ++ entries ++ rest.
Proof.
  intros w0 wb wa w1 w2 w3 first entries Hfile Hstart [Hf Hall] Hpass Hnext Hbreak.
  (* the first line of the run *)
  destruct (process_line_fails K l0 wb c0 msg Hf) as (wa' & Hl & _ & Hln & _ & Hw).
  assert (wa = wa') as Hwa by (unfold wa; by rewrite Hl).
  fold wa in Hall. rewrite <- Hwa in Hln, Hw. clear Hwa Hl wa'.
  assert (warnings (self wa)
          = warnings (self wb)
            ++ match last_warning (self wb) with
               | None => []
               | Some (e, m, f, l) =>
                   skipping_row f m e
                   :: (if decide (l = f) then [] else [and_for_next (l - f)])
               end
          /\ last_warning (self wa)
             = Some (type_name c0, msg, linenum (self wa), linenum (self wa)))
    as [Hwarn_a Hlast_a].
  { rewrite Hln.
    destruct (last_warning (self wb)) as [[[[e1 m1] f1] l1]|] eqn:Hlast.
    - assert (bool_decide (msg = m1)
              && bool_decide (l1 + 1 = linenum (self wb) + 1) = false) as Hno.
      { destruct (Hstart _ _ _ _ eq_refl) as [Hm|Hline].
        - rewrite bool_decide_eq_false_2; [done|]. by intros ->.
        - apply andb_false_iff. right. apply bool_decide_eq_false_2. lia. }
      rewrite Hno in Hw. destruct Hw as [-> ->]. split; [|done].
      destruct (decide (l1 = f1)) as [->|Hne].
      + by rewrite bool_decide_eq_true_2.
      + rewrite bool_decide_eq_false_2 by done. by rewrite <- app_assoc.
    - destruct Hw as [-> ->]. by rewrite app_nil_r. }
  (* the rest of the run, and the lines that pass *)
  destruct (all_fail_pending K msg run wa cs _ _ Hall Hlast_a) as (Hl1 & Hw1 & Hn1).
  fold w1 in Hl1, Hw1, Hn1.
  destruct (all_pass_frame K between w1 Hpass) as (Hl2 & Hw2 & Hn2).
  fold w2 in Hl2, Hw2, Hn2.
  (* the failure that ends the run *)
  destruct (process_line_fails K next w2 c' msg' Hnext)
    as (wc & Hlc & _ & Hlnc & _ & Hwc).
  assert (w3 = wc) as Hw3 by (unfold w3; by rewrite Hlc).
  rewrite <- Hw3 in Hlnc, Hwc.
  rewrite Hl2, Hl1 in Hwc.
  assert (bool_decide (msg' = msg)
          && bool_decide (linenum (self wa) + length run + 1 = linenum (self w2) + 1)
          = false) as Hno.
  { destruct Hbreak as [Hm|Hb].
    - by rewrite (bool_decide_eq_false_2 _ Hm).
    - apply andb_false_iff. right. apply bool_decide_eq_false_2.
      rewrite Hn2, Hn1. destruct between; [done|]. simpl. lia. }
  rewrite Hno in Hwc. destruct Hwc as [Hwarn_c Hlast_c].
  (* the file as a whole *)
  destruct (process_file_returns N _ _ _ _ _ Hfile) as (wz & Hz & Hst).
  fold w0 in Hz.
  apply process_lines_cat in Hz as (wb' & Hb & Hz).
  assert (wb = wb') as Hwb by (unfold wb; by rewrite Hb).
  rewrite <- Hwb in Hb, Hz. clear Hwb wb'.
  pose proof (process_lines_done_linenum K _ _ _ Hb) as Hnb.
  apply process_lines_cat in Hz as (w1' & Hr & Hz).
  assert (w1 = w1') as Hw1eq.
  { unfold w1, wa. cbn [process_lines] in Hr.
    destruct (process_line l0 wb) as [[] wx|ex wx]; [|done]. cbn. by rewrite Hr. }
  rewrite <- Hw1eq in Hz. clear Hw1eq Hr w1'.
  apply process_lines_cat in Hz as (w2' & Hbt & Hz).
  assert (w2 = w2') as Hw2eq by (unfold w2; by rewrite Hbt).
  rewrite <- Hw2eq in Hz. clear Hw2eq Hbt w2'.
  cbn [process_lines] in Hz. rewrite Hlc in Hz. rewrite <- Hw3 in Hz.
  apply (process_lines_appends K) in Hz as [rest Hrest].
  assert (warnings (self w3) = warnings (self wa) ++ entries) as Hentries.
  { rewrite Hwarn_c, Hw2, Hw1. unfold entries, first.
    assert (linenum (self wa) = length before + 2) as Hfirst.
    { rewrite Hln, Hnb. cbn. lia. }
    rewrite Hfirst.
    destruct run as [|l1 run].
    - rewrite bool_decide_eq_true_2 by (simpl; lia). done.
    - rewrite bool_decide_eq_false_2 by (simpl; lia).
      rewrite <- !app_assoc. simpl. do 4 f_equal. lia. }
  split_and!.
  - exact Hwarn_a.
  - by rewrite Hw2, Hw1.
  - exact Hentries.
  - by rewrite Hlast_c, Hlnc.
  - exists rest. by rewrite Hst, Hrest, Hentries, <- app_assoc.
Qed.

Lemma manage_warning_dry_run err msg b s :
  manage_warning err msg (set_dry_run b s)
  = set_dry_run b (manage_warning err msg s).
Proof.
  unfold manage_warning. cbn.
  destruct (last_warning s) as [[[[e0 m0] f0] l0]|]; [|done].
  destruct (_ && _); done.
Qed.

Lemma read_line_dry_run l b s :
  read_line l (set_dry_run b s) = set_dry_run b <$> read_line l s.
Proof. unfold read_line. cbn. by destruct (Text.split _ _). Qed.

Lemma process_line_blind (B : dry_run_blind) l b w :
  process_line l (with_self (set_dry_run b) w)
  = omap_world (with_self (set_dry_run b)) (process_line l w).
Proof.
  unfold process_line. cbn [self with_self].
  rewrite read_line_dry_run.
  destruct (read_line l (self w)) as [s|]; [|reflexivity].
  cbn [fmap option_fmap option_map]. cbn zeta. unfold atomic.
  change (with_self (fun _ => set_dry_run b s) (with_self (set_dry_run b) w))
    with (with_self (set_dry_run b) (with_self (fun _ => s) w)).
  rewrite B.
  destruct (process_row (with_self (fun _ => s) w)) as [[] w1|e w1]; [done|].
  cbn [omap_world]. unfold on_error. cbn.
  destruct (user_error (exn_type e)); [|done].
  destruct (warn_on_error (self w1)); [|done].
  cbn. by rewrite manage_warning_dry_run.
Qed.

Lemma process_lines_blind (B : dry_run_blind) lines : forall b w,
  process_lines lines (with_self (set_dry_run b) w)
  = (omap_world (with_self (set_dry_run b)) (process_lines lines w).1,
     (process_lines lines w).2).
Proof.
  induction lines as [|l lines IH]; intros b w; [done|].
  cbn [process_lines]. rewrite (process_line_blind B).
  destruct (process_line l w) as [[] w1|e w1]; [|done].
  cbn [omap_world]. apply IH.
Qed.

(** C2.  For a loader whose [process_row] does not depend on the
    [dry_run] attribute, the run with [dry_run] on and the run with
    [dry_run] off, from the same loader state and database, return the
    same [count], [new], [added], [changed], [ignored] and [warnings]
    (or raise the same exception), and the run with [dry_run] on leaves
    the database as it found it, whether it returns or raises. *)
Theorem dry_run_same_statistics (B : dry_run_blind)
    (name : string) (lines : list string) (w : world) :
  let on := process_file name lines (with_self (set_dry_run true) w) in
  let off := process_file name lines (with_self (set_dry_run false) w) in
  same_statistics on.1 off.1 /\ db_of on.2 = db_of w.
Proof.
  cbn zeta. unfold process_file, failed_line.
  set (init := fun s => set_last_warning None (set_linenum 1 (set_file name s))).
  set (w0 := with_self init w).
  change (with_self init (with_self (set_dry_run true) w))
    with (with_self (set_dry_run true) w0).
  change (with_self init (with_self (set_dry_run false) w))
    with (with_self (set_dry_run false) w0).
  unfold atomic, run_lines.
  rewrite !(process_lines_blind B). cbn [fst snd].
  destruct (process_lines lines w0).1 as [[] w1|e w1]; cbn.
  - done.
  - destruct (exn_type e); cbn; done.
Qed.

End driver.

End DriverFacts.

(** ** Accounting for an existing entity *)

Module AccountFacts.
Import Store AbstractLoader.

Lemma counter_incr_at l k h :
  counter_at (counter_incr l k h) l
  = <[k := S (default 0 (counter_at h l !! k))]> (counter_at h l).
Proof. unfold counter_at, counter_incr. cbn. by rewrite lookup_insert_eq. Qed.









Lemma value_ind' (P : value -> Prop) :
  P VNone -> (forall s, P (VStr s)) -> (forall m pk, P (VObj m pk)) ->
  (forall items, Forall (fun kv => P kv.2) items -> P (VDict items)) ->
  forall v, P v.
Proof.
  intros HN HS HO HD. fix IH 1.
  intros [|s|m pk|items]; [exact HN | apply HS | apply HO |].
  apply HD. revert items. fix IHl 1.
  intros [|[k v] items]; constructor; [apply IH | apply IHl].
Qed.

Lemma value_eqb_eq a : forall b, value_eqb a b = true <-> a = b.
Proof.
  induction a as [|s|m pk|items IH] using value_ind'; intros [|s'|m' pk'|items'];
    simpl; try (split; [discriminate|discriminate]); try done.
  - rewrite bool_decide_eq_true. split; congruence.
  - rewrite andb_true_iff, !bool_decide_eq_true.
    split; [intros [-> ->]; done | intros [= -> ->]; done].
  - revert items'. induction IH as [|[k v] items Hv _ IHl]; intros [|[k' v'] items'];
      try (split; [discriminate|discriminate]); try done.
    rewrite !andb_true_iff, bool_decide_eq_true.
    simpl in Hv. rewrite Hv, IHl. split.
    + intros [[-> ->] [= ->]]. done.
    + intros [= -> -> ->]. done.
Qed.

Lemma value_eqb_refl a : value_eqb a a = true.
Proof. by apply value_eqb_eq. Qed.


Lemma put_elem rs e : e ∈ put rs e.
Proof.
  induction rs as [|r rs IH]; simpl; [set_solver|].
  destruct (same_row _ _ r); set_solver.
Qed.

Section account.
Context `{Python} `{Models}.

Lemma clean_and_save_heap obj w :
  heap_of (final (clean_and_save obj w)) = heap_of w.
Proof.
  unfold clean_and_save. destruct (full_clean _ _); [done|].
  destruct (save _ _) as [[o d]|e]; done.
Qed.

Lemma clean_and_save_self obj w :
  self (final (clean_and_save obj w)) = self w.
Proof.
  unfold clean_and_save. destruct (full_clean _ _); [done|].
  destruct (save _ _) as [[o d]|e]; done.
Qed.

Lemma clean_and_save_ok obj w :
  full_clean (db_of w) obj = None ->
  db_constraint (db_of w) obj = None ->
  exists o d, save (db_of w) obj = Ok (o, d)
    /\ clean_and_save obj w = Done o (with_db d w)
    /\ i_attrs o = i_attrs obj /\ i_model o = i_model obj
    /\ exists pk, i_pk o = Some pk
         /\ Entity (i_model obj) pk (i_attrs obj) ∈ rows d.
Proof.
  intros Hclean Hcons. unfold clean_and_save, save. rewrite Hclean, Hcons.
  eexists _, _. split; [reflexivity|]. split; [reflexivity|].
  cbn. repeat split. eexists. split; [reflexivity|]. apply put_elem.
Qed.










End account.

End AccountFacts.

(** ** [GeneralLoader.process_row] and the driver *)

Module GeneralLoaderFacts.
Import GeneralLoader Store AbstractLoader.

Section frame.
Context `{Python} `{Models} `{Registry}.

Lemma set_rec_id s : set_rec (rec s) s = s.
Proof. by destruct s. Qed.

Lemma set_row_id s : set_row (row s) s = s.
Proof. by destruct s. Qed.

(** *** Only [self.rec] is assigned *)

Lemma account_self obj is_new fr w :
  exists c, self (final (account obj is_new fr w)) = set_rec c (self w).
Proof.
  unfold account.
  set (body := if is_new then _ else _).
  assert (self (final body) = self w) as Hbody.
  { unfold body. destruct is_new; [exact (AccountFacts.clean_and_save_self _ _)|].
    destruct fr as [fr|]; [|done].
    destruct (compare _ fr) as [consistent diff].
    destruct diff; [done|].
    destruct (consistent || can_overwrite (self w)).
    - destruct consistent; exact (AccountFacts.clean_and_save_self _ _).
    - by destruct consistent. }
  destruct body as [o w1|e w1]; cbn in *.
  - rewrite Hbody. eauto.
  - exists (rec (self w)). by rewrite set_rec_id.
Qed.

Local Abbreviation rec_only w w' := (exists c, self w' = set_rec c (self w)).

Lemma rec_only_refl w : rec_only w w.
Proof. exists (rec (self w)). by rewrite set_rec_id. Qed.

Lemma rec_only_trans w1 w2 w3 :
  rec_only w1 w2 -> rec_only w2 w3 -> rec_only w1 w3.
Proof. intros [c ->] [c' ->]. by exists c'. Qed.

Lemma obind_rec_only {A B} (m : outcome A) (k : A -> world -> outcome B) w :
  rec_only w (final m) ->
  (forall a w1, rec_only w1 (final (k a w1))) ->
  rec_only w (final (obind m k)).
Proof.
  intros Hm Hk. destruct m as [a w1|e w1]; cbn in *; [|done].
  eapply rec_only_trans; [exact Hm | apply Hk].
Qed.

Lemma add_m2ms_rec_only obj m2ms : forall w,
  rec_only w (final (add_m2ms obj m2ms w)).
Proof.
  induction m2ms as [|[k v] m2ms IH]; intros w; cbn; [apply rec_only_refl|].
  destruct (m2m_add _ _ _ _) as [d|e]; [|apply rec_only_refl].
  exact (IH (with_db d w)).
Qed.

Lemma guard_final {A} k v (m : outcome A) : final (guard k v m) = final m.
Proof. destruct m; cbn; [done|]. by destruct (user_error _). Qed.

Lemma reconcile_rec_only k v model w :
  rec_only w (final (reconcile k v model w)).
Proof.
  unfold reconcile.
  destruct (split_fields model v) as [[[id_arg data] m2ms]|e];
    [|apply rec_only_refl].
  apply obind_rec_only.
  { unfold find. destruct (Dict.get id_arg "natural"); [|apply rec_only_refl].
    destruct (natural_error _ _); apply rec_only_refl. }
  intros r w1. apply obind_rec_only.
  { destruct r; apply rec_only_refl. }
  intros on w2. apply obind_rec_only; [apply account_self|].
  intros obj w3. apply obind_rec_only; [apply add_m2ms_rec_only|].
  intros _ w4. cbn. eauto.
Qed.

Lemma visit_rec_only k w : rec_only w (final (visit k w)).
Proof.
  unfold visit. destruct (DeepRecord.get _ _); [|apply rec_only_refl].
  destruct (get_model k); [|apply rec_only_refl].
  rewrite guard_final. apply reconcile_rec_only.
Qed.

Lemma visit_all_rec_only ks : forall w, rec_only w (final (visit_all ks w)).
Proof.
  induction ks as [|k ks IH]; intros w; cbn; [apply rec_only_refl|].
  apply obind_rec_only; [apply visit_rec_only|]. intros _ w1. apply IH.
Qed.

Lemma parse_value_rec_only a v w : rec_only w (final (parse_value a v w)).
Proof.
  unfold parse_value. destruct (partition a) as [pref a'].
  destruct (parse_fun a'); [|apply rec_only_refl].
  destruct (r v) as [[]|e]; try apply rec_only_refl.
  destruct (bool_decide _); apply rec_only_refl.
Qed.

Lemma build_rec_rec_only row : forall w, rec_only w (final (build_rec row w)).
Proof.
  induction row as [|[k v] row IH]; intros w; cbn; [apply rec_only_refl|].
  apply obind_rec_only; [apply parse_value_rec_only|].
  intros x w1. destruct x; try apply IH.
  - eapply rec_only_trans; [|apply IH]. cbn. eauto.
  - eapply rec_only_trans; [|apply IH]. cbn. eauto.
  - eapply rec_only_trans; [|apply IH]. cbn. eauto.
Qed.

Lemma process_row_rec_only w : rec_only w (final (process_row w)).
Proof.
  unfold process_row. apply obind_rec_only.
  - eapply rec_only_trans; [|apply build_rec_rec_only]. cbn. eauto.
  - intros _ w1. apply visit_all_rec_only.
Qed.

(** [GeneralLoader.process_row] assigns [self.rec] only. *)
Lemma process_row_assigns : assigns_row_and_rec_only.
Proof.
  intros w. destruct (process_row_rec_only w) as [c Hc].
  exists (row (self w)), c. by rewrite set_row_id.
Qed.

(** *** [DryRunRollback] is not raised *)

Lemma obind_raised {A B} (m : outcome A) (k : A -> world -> outcome B) e w :
  obind m k = Raised e w ->
  m = Raised e w \/ exists a w1, m = Done a w1 /\ k a w1 = Raised e w.
Proof.
  destruct m as [a w1|e1 w1]; cbn; [|intros [= -> ->]; by left].
  intros Hk. right. eauto.
Qed.

Lemma guard_raised {A} k v (m : outcome A) e w :
  guard k v m = Raised e w -> exn_type e <> DryRunRollback.
Proof.
  destruct m as [a w1|e1 w1]; cbn; [done|].
  destruct (user_error (exn_type e1)) eqn:He; intros [= <- _]; [|done].
  by destruct (exn_type e1).
Qed.

Lemma visit_all_raised ks : forall w e w',
  visit_all ks w = Raised e w' -> exn_type e <> DryRunRollback.
Proof.
  induction ks as [|k ks IH]; intros w e w'; cbn; [done|].
  intros [Hv|(_ & w1 & _ & Hr)]%obind_raised; [|by eapply IH].
  unfold visit in Hv. destruct (DeepRecord.get _ _); [|done].
  destruct (get_model k); [|done]. by eapply guard_raised.
Qed.

Lemma parse_value_raised a v w e w' :
  parse_value a v w = Raised e w' -> exn_type e <> DryRunRollback.
Proof.
  unfold parse_value. destruct (partition a) as [pref a'].
  destruct (parse_fun a'); [|done].
  destruct (r v) as [[]|e0]; try done.
  destruct (bool_decide _); by intros [= <- _].
Qed.

Lemma build_rec_raised row : forall w e w',
  build_rec row w = Raised e w' -> exn_type e <> DryRunRollback.
Proof.
  induction row as [|[k v] row IH]; intros w e w'; cbn; [done|].
  intros [Hv|(x & w1 & _ & Hr)]%obind_raised.
  - by eapply parse_value_raised.
  - destruct x; by eapply IH.
Qed.

(** [GeneralLoader.process_row] does not raise [DryRunRollback]. *)
Lemma process_row_no_rollback : no_rollback_request.
Proof.
  intros w e w'. cbn. unfold process_row.
  intros [Hb|(_ & w1 & _ & Hr)]%obind_raised.
  - by eapply build_rec_raised.
  - by eapply visit_all_raised.
Qed.

(** *** [self.dry_run] is neither read nor assigned *)

Local Abbreviation G b := (with_self (set_dry_run b)).

Lemma obind_blind {A B} b (m m' : outcome A) (k : A -> world -> outcome B) :
  m' = omap_world (G b) m ->
  (forall a w1, k a (G b w1) = omap_world (G b) (k a w1)) ->
  obind m' k = omap_world (G b) (obind m k).
Proof. intros -> Hk. destruct m as [a w1|e w1]; cbn; [apply Hk|done]. Qed.

Lemma clean_and_save_blind b obj w :
  clean_and_save obj (G b w) = omap_world (G b) (clean_and_save obj w).
Proof.
  unfold clean_and_save. cbn.
  destruct (full_clean _ _); [done|]. by destruct (save _ _) as [[o d]|e].
Qed.

Lemma account_blind b obj is_new fr w :
  account obj is_new fr (G b w) = omap_world (G b) (account obj is_new fr w).
Proof.
  unfold account. cbn [self with_self].
  change (audit_entry (set_dry_run b (self w))) with (audit_entry (self w)).
  apply obind_blind; [|done].
  destruct is_new; [exact (clean_and_save_blind b _ (with_heap _ w))|].
  destruct fr as [fr|]; [|done].
  destruct (compare _ fr) as [consistent diff].
  destruct diff; [done|].
  change (can_overwrite (set_dry_run b (self w))) with (can_overwrite (self w)).
  destruct (consistent || can_overwrite (self w)).
  - destruct consistent; exact (clean_and_save_blind b _ (with_heap _ w)).
  - by destruct consistent.
Qed.

Lemma add_m2ms_blind b obj m2ms : forall w,
  add_m2ms obj m2ms (G b w) = omap_world (G b) (add_m2ms obj m2ms w).
Proof.
  induction m2ms as [|[k v] m2ms IH]; intros w; cbn; [done|].
  destruct (m2m_add _ _ _ _) as [d|e]; [|done]. exact (IH (with_db d w)).
Qed.

Lemma guard_blind {A} b k v (m : outcome A) :
  guard k v (omap_world (G b) m) = omap_world (G b) (guard k v m).
Proof. destruct m; cbn; [done|]. by destruct (user_error _). Qed.

Lemma reconcile_blind b k v model w :
  reconcile k v model (G b w) = omap_world (G b) (reconcile k v model w).
Proof.
  unfold reconcile.
  destruct (split_fields model v) as [[[id_arg data] m2ms]|e]; [|done].
  apply obind_blind.
  { unfold find. cbn. destruct (Dict.get id_arg "natural"); [|done].
    by destruct (natural_error _ _). }
  intros r w1. apply obind_blind; [by destruct r|].
  intros on w2. apply obind_blind; [apply account_blind|].
  intros obj w3. apply obind_blind; [apply add_m2ms_blind|].
  done.
Qed.

Lemma visit_blind b k w : visit k (G b w) = omap_world (G b) (visit k w).
Proof.
  unfold visit. cbn [self with_self].
  change (rec (set_dry_run b (self w))) with (rec (self w)).
  destruct (DeepRecord.get _ _); [|done].
  destruct (get_model k); [|done].
  rewrite reconcile_blind. apply guard_blind.
Qed.

Lemma visit_all_blind b ks : forall w,
  visit_all ks (G b w) = omap_world (G b) (visit_all ks w).
Proof.
  induction ks as [|k ks IH]; intros w; cbn; [done|].
  apply obind_blind; [apply visit_blind|]. intros _ w1. apply IH.
Qed.

Lemma parse_value_blind b a v w :
  parse_value a v (G b w) = omap_world (G b) (parse_value a v w).
Proof.
  unfold parse_value. destruct (partition a) as [pref a'].
  destruct (parse_fun a'); [|done].
  destruct (r v) as [[]|e]; try done.
  by destruct (bool_decide _).
Qed.

Lemma build_rec_blind b row : forall w,
  build_rec row (G b w) = omap_world (G b) (build_rec row w).
Proof.
  induction row as [|[k v] row IH]; intros w; cbn [build_rec]; [done|].
  apply obind_blind; [apply parse_value_blind|].
  intros x w1. destruct x; try apply IH;
    (etransitivity; [|apply IH]; reflexivity).
Qed.

(** [GeneralLoader.process_row] does not depend on [self.dry_run]. *)
Lemma process_row_blind : dry_run_blind.
Proof.
  intros b w. cbn. unfold process_row. cbn [self with_self].
  change (row (set_dry_run b (self w))) with (row (self w)).
  apply obind_blind.
  - exact (build_rec_blind b _ (with_self (set_rec []) w)).
  - intros _ w1. cbn [self with_self].
    change (rec (set_dry_run b (self w1))) with (rec (self w1)).
    apply visit_all_blind.
Qed.

End frame.

Section ambiguity.
Context `{Python} `{Models} `{Registry}.

Lemma get_multiple d model id_arg :
  1 < length (List.filter (matches model id_arg) (rows d)) ->
  get d model id_arg = MultipleObjectsReturned.
Proof.
  unfold get. destruct (List.filter _ _) as [|e [|e' l]]; simpl; [lia..|done].
Qed.

Lemma visit_all_app ks1 ks2 : forall w,
  visit_all (ks1 ++ ks2) w
  = obind (visit_all ks1 w) (fun _ w => visit_all ks2 w).
Proof.
  induction ks1 as [|k ks1 IH]; intros w; cbn; [done|].
  destruct (visit k w) as [[] w1|e w1]; cbn; [apply IH|done].
Qed.

Lemma process_lines_app l1 l2 w w1 :
  (process_lines l1 w).1 = Done () w1 ->
  process_lines (l1 ++ l2) w = process_lines l2 w1.
Proof.
  revert w. induction l1 as [|l l1 IH]; intros w; cbn.
  - by intros [= ->].
  - destruct (process_line l w) as [[] w'|e w']; [apply IH|done].
Qed.

(** An ambiguous lookup has no exception class of its own: it is a
    [UserDataError] whose text says that the keys are not specific
    enough.
    - When the traversal of the record of a row reaches a node whose
      identifying keys match more than one stored entity of the model,
      [process_row] raises that [UserDataError].
    - With warnings off, [process_line] re-raises a [UserDataError] of
      the row with the line and the row added to its text, and
      [process_file] lets it pass; in both cases the database is the one
      from before the line, respectively from before the file.
    - With warnings on, the line is completed, the database is the one
      from before the line, and the text of the error is held as the
      warning of this line. *)
Theorem ambiguous_lookup_is_user_error :
  (forall w w1 ks1 k ks2 w2 v model id_arg data m2ms,
     build_rec (row (self w)) (with_self (set_rec []) w) = Done () w1 ->
     DeepRecord.paths (rec (self w1)) = ks1 ++ k :: ks2 ->
     visit_all ks1 w1 = Done () w2 ->
     DeepRecord.get (rec (self w2)) k = Some v ->
     get_model k = Some model ->
     split_fields model v = Ok (id_arg, data, m2ms) ->
     (forall n, Dict.get id_arg "natural" = Some n -> natural_error model n = None) ->
     1 < length (List.filter (matches model id_arg) (rows (db_of w2))) ->
     GeneralLoader.process_row w
     = Raised (Exn UserDataError (not_specific id_arg model)) w2)
  /\ (forall line w s msg w',
        read_line line (self w) = Some s ->
        GeneralLoader.process_row (with_self (fun _ => s) w)
        = Raised (Exn UserDataError msg) w' ->
        (warn_on_error (self w) = false ->
         process_line line w
         = Raised (Exn UserDataError (at_line (self w') msg)) (with_db (db_of w) w'))
        /\ (warn_on_error (self w) = true ->
            exists w'' c first,
              process_line line w = Done () w''
              /\ db_of w'' = db_of w
              /\ last_warning (self w'')
                 = Some (c, msg, first, linenum (self w) + 1)))
  /\ (forall name before line after w w1 e w2,
        (process_lines before
           (with_self (fun s => set_last_warning None
                                  (set_linenum 1 (set_file name s))) w)).1
        = Done () w1 ->
        process_line line w1 = Raised e w2 ->
        exn_type e = UserDataError ->
        process_file name (before ++ line :: after) w
        = (Error e, with_db (db_of w) w2)).
Proof.
  split_and!.
  - intros w w1 ks1 k ks2 w2 v model id_arg data m2ms
           Hbuild Hpaths Hbefore Hv Hmodel Hsplit Hnat Hmany.
    unfold GeneralLoader.process_row. rewrite Hbuild. cbn [obind].
    rewrite Hpaths, visit_all_app, Hbefore. cbn [obind visit_all].
    unfold visit. rewrite Hv, Hmodel. unfold reconcile. rewrite Hsplit.
    unfold find.
    assert (match Dict.get id_arg "natural" with
            | Some n =>
                match natural_error model n with
                | Some msg => Raised (Exn UserDataError msg) w2
                | None => Done (get (db_of w2) model id_arg) w2
                end
            | None => Done (get (db_of w2) model id_arg) w2
            end = Done MultipleObjectsReturned w2) as ->.
    { rewrite (get_multiple _ _ _ Hmany).
      destruct (Dict.get id_arg "natural") as [n|]; [|done].
      by rewrite (Hnat n). }
    reflexivity.
  - intros line w s msg w' Hs Hrow.
    pose proof (process_row_assigns (with_self (fun _ => s) w)) as (r & c & Hself).
    change (AbstractLoader.process_row (with_self (fun _ => s) w))
      with (GeneralLoader.process_row (with_self (fun _ => s) w)) in Hself.
    rewrite Hrow in Hself. cbn in Hself.
    destruct (DriverFacts.read_line_shape _ _ _ Hs) as [r0 Hs'].
    assert (warn_on_error (self w') = warn_on_error (self w)) as Hwarn.
    { rewrite Hself, Hs'. reflexivity. }
    split.
    + intros Hoff. unfold process_line. rewrite Hs. cbn zeta.
      unfold atomic.
      change (AbstractLoader.process_row (with_self (fun _ => s) w))
        with (GeneralLoader.process_row (with_self (fun _ => s) w)).
      rewrite Hrow. unfold on_error. cbn.
      rewrite Hwarn, Hoff. reflexivity.
    + intros Hon.
      assert (fails_with line w UserDataError msg) as Hf.
      { exists s, (with_db (db_of w) w'). split_and!; [done| |done|].
        - unfold atomic.
          change (AbstractLoader.process_row (with_self (fun _ => s) w))
            with (GeneralLoader.process_row (with_self (fun _ => s) w)).
          by rewrite Hrow.
        - cbn. by rewrite Hwarn. }
      destruct (DriverFacts.process_line_fails process_row_assigns _ _ _ _ Hf)
        as (w'' & Hl & Hdb & _ & _ & Hw).
      destruct (last_warning (self w)) as [[[[e0 m0] f0] l0]|].
      * destruct (_ && _); destruct Hw as [_ Hw]; eauto 10.
      * destruct Hw as [_ Hw]. eauto 10.
  - intros name before line after w w1 e w2 Hbefore Hline He.
    unfold process_file, failed_line, atomic, run_lines.
    rewrite (process_lines_app _ _ _ _ Hbefore). cbn [process_lines].
    rewrite Hline. cbn. rewrite He. reflexivity.
Qed.

End ambiguity.

End GeneralLoaderFacts.

(** ** Dictionaries *)

Module DictFacts.
Import Store.

Section dict.
Context {V : Type}.
Implicit Types (d : Dict.t V) (k : string) (v : V).

Lemma get_elem d k v : Dict.get d k = Some v -> (k, v) ∈ d.
Proof.
  induction d as [|[k' v'] d IH]; simpl; [done|].
  destruct (decide (k' = k)) as [->|Hne].
  - intros [= ->]. by apply elem_of_cons; left.
  - intros Hget. apply elem_of_cons. right. by apply IH.
Qed.

Lemma get_none d k : Dict.get d k = None -> k ∉ Dict.keys d.
Proof.
  unfold Dict.keys. induction d as [|[k' v'] d IH]; simpl.
  - intros _. apply not_elem_of_nil.
  - destruct (decide (k' = k)) as [->|Hne]; [done|].
    intros Hget. apply not_elem_of_cons. split; [done|by apply IH].
Qed.

Lemma set_elem d k v x : x ∈ Dict.set d k v -> x = (k, v) \/ x ∈ d.
Proof.
  induction d as [|[k' v'] d IH]; simpl.
  - intros ->%list_elem_of_singleton. by left.
  - destruct (decide (k' = k)) as [->|Hne]; intros [->|Hin]%elem_of_cons.
    + by left.
    + right. by apply elem_of_cons; right.
    + right. by apply elem_of_cons; left.
    + destruct (IH Hin) as [->|Hx]; [by left|].
      right. by apply elem_of_cons; right.
Qed.

Lemma set_keys d k v x :
  x ∈ Dict.keys (Dict.set d k v) <-> x = k \/ x ∈ Dict.keys d.
Proof.
  unfold Dict.keys. induction d as [|[k' v'] d IH]; simpl.
  - rewrite list_elem_of_singleton, elem_of_nil. tauto.
  - destruct (decide (k' = k)) as [->|Hne]; simpl; rewrite !elem_of_cons.
    + tauto.
    + rewrite IH. tauto.
Qed.

Lemma set_nodup d k v :
  NoDup (Dict.keys d) -> NoDup (Dict.keys (Dict.set d k v)).
Proof.
  unfold Dict.keys. induction d as [|[k' v'] d IH]; simpl.
  - intros _. apply NoDup_singleton.
  - intros [Hk Hnd]%NoDup_cons.
    destruct (decide (k' = k)) as [->|Hne]; simpl; apply NoDup_cons.
    + done.
    + split; [|by apply IH].
      intros [->|Hin]%(set_keys d k v k'); [done|by apply Hk].
Qed.

Lemma remove_elem d k x : x ∈ Dict.remove d k -> x ∈ d /\ x.1 <> k.
Proof.
  induction d as [|[k' v'] d IH]; simpl; [by intros ?%elem_of_nil|].
  destruct (decide (k' = k)) as [->|Hne].
  - intros [Hin Hx]%IH. split; [by apply elem_of_cons; right|done].
  - intros [->|Hin]%elem_of_cons.
    + split; [by apply elem_of_cons; left|done].
    + destruct (IH Hin). split; [by apply elem_of_cons; right|done].
Qed.

Lemma remove_keys d k x :
  x ∈ Dict.keys (Dict.remove d k) -> x ∈ Dict.keys d /\ x <> k.
Proof.
  unfold Dict.keys. intros ([k' v] & -> & [Hin Hne]%remove_elem)%list_elem_of_fmap.
  split; [|done]. apply list_elem_of_fmap. by exists (k', v).
Qed.

Lemma remove_nodup d k :
  NoDup (Dict.keys d) -> NoDup (Dict.keys (Dict.remove d k)).
Proof.
  unfold Dict.keys. induction d as [|[k' v'] d IH]; simpl; [done|].
  intros [Hk Hnd]%NoDup_cons.
  destruct (decide (k' = k)) as [->|Hne]; [by apply IH|].
  simpl. apply NoDup_cons. split; [|by apply IH].
  intros [Hin _]%(remove_keys d k k'). by apply Hk.
Qed.

Lemma of_pairs_acc (l : list (string * V)) : forall d,
  let r := foldl (fun d kv => Dict.set d kv.1 kv.2) d l in
  (NoDup (Dict.keys d) -> NoDup (Dict.keys r))
  /\ forall x, x ∈ r -> x ∈ d \/ x ∈ l.
Proof.
  induction l as [|[k v] l IH]; intros d; simpl.
  - split; [done|]. by left.
  - destruct (IH (Dict.set d k v)) as [Hnd Hin]. split.
    + intros Hd. by apply Hnd, set_nodup.
    + intros x Hx. destruct (Hin x Hx) as [Hs|Hl].
      * destruct (set_elem _ _ _ _ Hs) as [->|Hd]; [|by left].
        right. by apply elem_of_cons; left.
      * right. by apply elem_of_cons; right.
Qed.

Lemma of_pairs_nodup (l : list (string * V)) : NoDup (Dict.keys (Dict.of_pairs l)).
Proof. apply (of_pairs_acc l []). apply NoDup_nil_2. Qed.

Lemma of_pairs_elem (l : list (string * V)) x : x ∈ Dict.of_pairs l -> x ∈ l.
Proof.
  intros Hx. destruct (proj2 (of_pairs_acc l []) x Hx) as [Hn|Hl]; [|done].
  by apply elem_of_nil in Hn.
Qed.

Lemma removes_elem d ks x :
  x ∈ foldl (fun d i => Dict.remove d i) d ks -> x ∈ d.
Proof.
  revert d. induction ks as [|k ks IH]; intros d; simpl; [done|].
  intros Hx. by apply IH, remove_elem in Hx as [Hx _].
Qed.

Lemma removes_nodup d ks :
  NoDup (Dict.keys d) -> NoDup (Dict.keys (foldl (fun d i => Dict.remove d i) d ks)).
Proof.
  revert d. induction ks as [|k ks IH]; intros d; simpl; [done|].
  intros Hd. by apply IH, remove_nodup.
Qed.

Lemma get_set (d : Dict.t V) k v k' :
  Dict.get (Dict.set d k v) k'
  = if decide (k = k') then Some v else Dict.get d k'.
Proof.
  induction d as [|[k0 v0] d IH]; simpl.
  - by destruct (decide (k = k')).
  - destruct (decide (k0 = k)) as [->|Hne]; simpl.
    + by destruct (decide (k = k')).
    + destruct (decide (k0 = k')) as [->|Hne'].
      * by rewrite decide_False by done.
      * exact IH.
Qed.

Lemma get_some_keys (d : Dict.t V) k :
  is_Some (Dict.get d k) <-> k ∈ Dict.keys d.
Proof.
  unfold Dict.keys. induction d as [|[k0 v0] d IH]; simpl.
  - rewrite elem_of_nil. split; [by intros [? ?]|done].
  - rewrite elem_of_cons. destruct (decide (k0 = k)) as [->|Hne].
    + split; [by left|eauto].
    + rewrite IH. split; [by right|]. by intros [->|?].
Qed.

Lemma of_pairs_keys (l : list (string * V)) k :
  k ∈ Dict.keys (Dict.of_pairs l) <-> k ∈ l.*1.
Proof.
  unfold Dict.of_pairs.
  assert (forall d, k ∈ Dict.keys (foldl (fun d kv => Dict.set d kv.1 kv.2) d l)
                    <-> k ∈ Dict.keys d \/ k ∈ l.*1) as Hacc.
  { induction l as [|[k0 v0] l IH]; intros d; simpl.
    - rewrite elem_of_nil. tauto.
    - rewrite IH, set_keys, elem_of_cons. tauto. }
  rewrite Hacc. unfold Dict.keys at 1. simpl. rewrite elem_of_nil. tauto.
Qed.

End dict.
End DictFacts.

(** ** Writing rows *)

Module StoreFacts.
Import Store.

Lemma same_row_spec m pk e :
  same_row m pk e = true <-> (e_model e, e_pk e) = (m, pk).
Proof.
  unfold same_row. rewrite andb_true_iff, !bool_decide_eq_true.
  split; [intros [-> ->]; done | intros [= -> ->]; done].
Qed.

Lemma put_ids rs e :
  (fun e => (e_model e, e_pk e)) <$> put rs e
  = if existsb (same_row (e_model e) (e_pk e)) rs
    then (fun e => (e_model e, e_pk e)) <$> rs
    else ((fun e => (e_model e, e_pk e)) <$> rs) ++ [(e_model e, e_pk e)].
Proof.
  induction rs as [|r rs IH]; [done|]. cbn [put existsb].
  destruct (same_row _ _ r) eqn:Hr; cbn [orb]; rewrite !fmap_cons.
  - apply same_row_spec in Hr. by rewrite Hr.
  - rewrite IH. by destruct (existsb _ rs).
Qed.

Lemma fresh_pk_above model rs e :
  e ∈ rs -> e_model e = model -> e_pk e < fresh_pk model rs.
Proof.
  unfold fresh_pk. induction rs as [|r rs IH]; [by intros ?%elem_of_nil|].
  intros [->|Hin]%elem_of_cons Hm; simpl.
  - rewrite decide_True by done. lia.
  - specialize (IH Hin Hm). destruct (decide _); lia.
Qed.

Lemma put_fresh rs e :
  existsb (same_row (e_model e) (e_pk e)) rs = false -> put rs e = rs ++ [e].
Proof.
  induction rs as [|r rs IH]; [done|]. cbn [put existsb].
  intros [Hr Hrs]%orb_false_iff. rewrite Hr. simpl. by rewrite IH.
Qed.

End StoreFacts.

(** ** [grouper] and [chunker] *)

Module UtilsFacts.
Import Utils.

Lemma draw_spec {A} n (fill : A) : forall it,
  draw n fill it = (take n it ++ replicate (n - length it) fill, drop n it).
Proof.
  induction n as [|n IH]; intros it; simpl.
  - done.
  - destruct it as [|x it]; simpl.
    + rewrite IH. simpl. by rewrite take_nil, Nat.sub_0_r.
    + rewrite IH. reflexivity.
Qed.

Lemma tuples_nil {A} fuel n (fill : A) : tuples fuel n fill [] = [].
Proof. by destruct fuel. Qed.

Lemma tuples_step {A} fuel n (fill : A) it :
  it <> [] ->
  tuples (S fuel) n fill it
  = (take n it ++ replicate (n - length it) fill) :: tuples fuel n fill (drop n it).
Proof.
  intros Hne. destruct it as [|x it]; [done|].
  cbn [tuples]. by rewrite draw_spec.
Qed.

(** The groups of [grouper], for [n > 0] and enough fuel. *)
Lemma tuples_shape {A} n (fill : A) : 0 < n -> forall fuel it,
  length it <= fuel ->
  Forall (fun g => length g = n) (tuples fuel n fill it)
  /\ exists pad, pad < n
       /\ concat (tuples fuel n fill it) = it ++ replicate pad fill.
Proof.
  intros Hn. induction fuel as [|fuel IH]; intros it Hlen.
  - destruct it; [|simpl in Hlen; lia]. simpl. split; [constructor|].
    exists 0. split; [lia|done].
  - destruct it as [|x it].
    { simpl. split; [constructor|]. exists 0. split; [lia|done]. }
    rewrite tuples_step by done.
    set (l := x :: it) in *.
    destruct (IH (drop n l)) as [Hall (pad & Hpad & Hcat)].
    { rewrite length_drop. subst l. simpl in *. lia. }
    split.
    + constructor; [|done].
      rewrite length_app, length_take, length_replicate. lia.
    + destruct (decide (n <= length l)) as [Hle|Hgt].
      * exists pad. split; [done|].
        cbn [concat]. rewrite Hcat.
        replace (n - length l) with 0 by lia. cbn [replicate].
        rewrite app_nil_r, app_assoc, take_drop. done.
      * exists (n - length l). split; [subst l; simpl; lia|].
        cbn [concat].
        rewrite drop_ge in Hcat |- * by lia.
        rewrite tuples_nil. cbn [concat]. rewrite app_nil_r.
        by rewrite take_ge by lia.
Qed.

Lemma last_app_replicate {A} (l : list A) k x :
  0 < k -> last (l ++ replicate k x) = Some x.
Proof.
  intros Hk. destruct k as [|k]; [lia|].
  rewrite replicate_S_end, app_assoc. apply last_snoc.
Qed.

Lemma last_fmap_Some {A} (l : list A) : last (Some <$> l) <> Some None.
Proof.
  rewrite fmap_last. by destruct (last l).
Qed.

Lemma filter_items {A} (l : list A) k :
  List.filter (fun i : option A => negb match i with None => true | Some _ => false end)
    ((Some <$> l) ++ replicate k None) = Some <$> l.
Proof.
  induction l as [|x l IH].
  - induction k; simpl; auto.
  - cbn. f_equal. exact IH.
Qed.

Local Abbreviation unfill :=
  (fun grp : list (option _) =>
     match last grp with
     | Some None =>
         List.filter (fun i => negb match i with None => true | Some _ => false end) grp
     | _ => grp
     end).

Lemma chunks_shape {A} n : 0 < n -> forall fuel (l : list A),
  length l <= fuel ->
  concat (unfill <$> tuples fuel n None (Some <$> l)) = Some <$> l
  /\ length <$> (unfill <$> tuples fuel n None (Some <$> l))
     = replicate (length l / n) n
       ++ (if length l mod n =? 0 then [] else [length l mod n]).
Proof.
  intros Hn. induction fuel as [|fuel IH]; intros l Hlen.
  - destruct l; [|simpl in Hlen; lia]. simpl.
    rewrite Nat.Div0.div_0_l, Nat.Div0.mod_0_l. done.
  - destruct l as [|x l].
    { simpl. rewrite Nat.Div0.div_0_l, Nat.Div0.mod_0_l. done. }
    rewrite tuples_step by done.
    set (xs := x :: l) in *.
    rewrite length_fmap, <- fmap_take, <- fmap_drop.
    destruct (IH (drop n xs)) as [Hcat Hlens].
    { rewrite length_drop. subst xs. simpl in *. lia. }
    rewrite !fmap_cons.
    destruct (decide (n <= length xs)) as [Hle|Hgt].
    + replace (n - length xs) with 0 by lia. cbn [replicate].
      rewrite app_nil_r.
      assert (unfill (Some <$> take n xs) = Some <$> take n xs) as ->.
      { pose proof (last_fmap_Some (take n xs)) as Hl.
        destruct (last (Some <$> take n xs)) as [[y|]|]; done. }
      split.
      * cbn [concat]. rewrite Hcat, <- fmap_app, take_drop. done.
      * assert (length xs `div` n = S ((length xs - n) `div` n)
                /\ length xs `mod` n = (length xs - n) `mod` n) as [Hd Hm].
        { assert (length xs = 1 * n + (length xs - n)) as Heq by lia.
          rewrite Heq at 1 3.
          rewrite Nat.div_add_l by lia.
          rewrite (Nat.add_comm (1 * n)), Nat.Div0.mod_add. done. }
        cbn [fmap list_fmap] in Hlens |- *.
        rewrite Hlens, length_drop, length_fmap, length_take, Hd, Hm.
        cbn [replicate app]. f_equal. lia.
    + assert (unfill ((Some <$> take n xs) ++ replicate (n - length xs) None)
              = Some <$> xs) as ->.
      { rewrite last_app_replicate by lia. rewrite filter_items.
        by rewrite take_ge by lia. }
      rewrite drop_ge by lia. cbn [fmap list_fmap]. rewrite tuples_nil.
      split.
      * cbn. by rewrite app_nil_r.
      * cbn [fmap list_fmap]. rewrite length_fmap.
        rewrite Nat.div_small, Nat.mod_small by lia.
        assert (length xs <> 0) by (subst xs; simpl; lia).
        destruct (Nat.eqb_spec (length xs) 0); [lia|]. done.
Qed.

(** X1.  Every group of [grouper] has [n] items, and together the groups
    are the items of the input followed by fewer than [n] fill values. *)
Theorem grouper_groups {A} (iterable : list A) (n : nat) (fillvalue : A) :
  0 < n ->
  Forall (fun g => length g = n) (grouper iterable n fillvalue)
  /\ exists pad, pad < n
       /\ concat (grouper iterable n fillvalue)
          = iterable ++ replicate pad fillvalue.
Proof.
  intros Hn. unfold grouper. destruct n as [|n]; [lia|].
  by apply tuples_shape.
Qed.

Lemma grouper_groups_witness :
  Forall (fun g => length g = 3) (grouper [1; 2; 3; 4; 5] 3 0)
  /\ exists pad, pad < 3
       /\ concat (grouper [1; 2; 3; 4; 5] 3 0) = [1; 2; 3; 4; 5] ++ replicate pad 0.
Proof. apply (grouper_groups [1; 2; 3; 4; 5] 3 0). lia. Defined.

(** X2.  The chunks of [chunker], put one after the other, are the items
    of the input, in order and without the sentinel. *)
Theorem chunker_concat {A} (iterable : list A) (n : nat) :
  0 < n -> concat (chunker iterable n) = Some <$> iterable.
Proof.
  intros Hn. unfold chunker, grouper. destruct n as [|n]; [lia|].
  rewrite length_fmap.
  by apply (chunks_shape (S n)).
Qed.

Lemma chunker_concat_witness :
  concat (chunker ["a"; "b"; "c"] 2) = Some <$> ["a"; "b"; "c"].
Proof. apply (chunker_concat ["a"; "b"; "c"] 2). lia. Defined.

(** X3.  All chunks have [n] items, except that a last chunk holds the
    remainder when the length of the input is not a multiple of [n]; no
    chunk is empty. *)
Theorem chunker_sizes {A} (iterable : list A) (n : nat) :
  0 < n ->
  length <$> chunker iterable n
  = replicate (length iterable / n) n
    ++ (if length iterable mod n =? 0 then [] else [length iterable mod n]).
Proof.
  intros Hn. unfold chunker, grouper. destruct n as [|n]; [lia|].
  rewrite length_fmap.
  by apply (chunks_shape (S n)).
Qed.

Lemma chunker_sizes_witness :
  length <$> chunker ["a"; "b"; "c"; "d"; "e"] 2
  = replicate (length ["a"; "b"; "c"; "d"; "e"] / 2) 2
    ++ (if length ["a"; "b"; "c"; "d"; "e"] mod 2 =? 0 then []
        else [length ["a"; "b"; "c"; "d"; "e"] mod 2]).
Proof. apply (chunker_sizes ["a"; "b"; "c"; "d"; "e"] 2). lia. Defined.

End UtilsFacts.

(** ** Numbers and their text *)

Module NumberFacts.
Import Str Number.

Lemma digit_char (d : N) :
  (d < 10)%N -> digit (pretty_N_char d) = Some (Z.of_N d).
Proof.
  intros Hd.
  assert (d = 0 \/ d = 1 \/ d = 2 \/ d = 3 \/ d = 4 \/ d = 5 \/ d = 6
          \/ d = 7 \/ d = 8 \/ d = 9)%N as Hcases by lia.
  repeat (destruct Hcases as [->|Hcases]; [reflexivity|]).
  by subst.
Qed.

Lemma digit_plain c d :
  digit c = Some d ->
  is_space c = false /\ Ascii.eqb c "-" = false /\ Ascii.eqb c "+" = false.
Proof.
  destruct c as [[] [] [] [] [] [] [] []]; vm_compute; intros; by simplify_eq.
Qed.

Lemma numeral_go x : forall s, numeral s = true -> numeral (pretty_N_go x s) = true.
Proof.
  induction (N.lt_wf_0 x) as [x _ IH]; intros s Hs.
  destruct (decide (x = 0%N)) as [->|Hx]; [by rewrite pretty_N_go_0|].
  rewrite pretty_N_go_step by lia.
  apply IH; [apply N.div_lt; lia|].
  cbn [numeral]. rewrite digit_char by (apply N.mod_lt; lia).
  rewrite bool_decide_true by eauto. done.
Qed.

Lemma digits_go x : forall s seen,
  (0 < x)%N -> digits 0 seen (pretty_N_go x s) = digits (Z.of_N x) true s.
Proof.
  induction (N.lt_wf_0 x) as [x _ IH]; intros s seen Hx.
  rewrite pretty_N_go_step by done.
  assert (Z.of_N x = 10 * Z.of_N (x `div` 10) + Z.of_N (x `mod` 10))%Z as Hdm.
  { pose proof (N.div_mod x 10 ltac:(done)) as E.
    rewrite E at 1. by rewrite N2Z.inj_add, N2Z.inj_mul. }
  destruct (decide (x `div` 10 = 0)%N) as [Hz|Hnz].
  - rewrite Hz, pretty_N_go_0. cbn [digits].
    rewrite digit_char by (apply N.mod_lt; lia).
    rewrite Hdm, Hz. done.
  - rewrite IH; [|apply N.div_lt; lia|by apply N.neq_0_lt_0].
    cbn [digits]. rewrite digit_char by (apply N.mod_lt; lia).
    by rewrite Hdm.
Qed.

Lemma numeral_pretty (n : N) : numeral (pretty n) = true.
Proof.
  unfold pretty, pretty_N. case_decide; [done|]. by apply numeral_go.
Qed.

Lemma digits_pretty (n : N) seen : digits 0 seen (pretty n) = Some (Z.of_N n).
Proof.
  unfold pretty, pretty_N. case_decide as Hn.
  - by subst.
  - rewrite digits_go by lia. done.
Qed.

Lemma pretty_nonempty (n : N) : pretty n <> EmptyString.
Proof.
  intros Hp. pose proof (digits_pretty n false) as Hd. by rewrite Hp in Hd.
Qed.

Lemma lstrip_numeral s : numeral s = true -> lstrip s = s.
Proof.
  destruct s as [|c s]; [done|]. cbn [numeral lstrip].
  intros [[d Hd]%bool_decide_eq_true _]%andb_prop.
  by destruct (digit_plain _ _ Hd) as (-> & _).
Qed.

Lemma rstrip_numeral s : numeral s = true -> rstrip s = s.
Proof.
  induction s as [|c s IH]; [done|]. cbn [numeral rstrip].
  intros [[d Hd]%bool_decide_eq_true Hs]%andb_prop.
  rewrite (IH Hs). destruct (digit_plain _ _ Hd) as (-> & _).
  by destruct s.
Qed.

Lemma strip_numeral s : numeral s = true -> strip s = s.
Proof.
  intros Hs. unfold strip. by rewrite lstrip_numeral, rstrip_numeral.
Qed.

(** A numeral reads as the number that its digits denote. *)
Lemma int_numeral s :
  numeral s = true -> s <> EmptyString -> int s = digits 0 false s.
Proof.
  intros Hs Hne. unfold int. rewrite strip_numeral by done.
  destruct s as [|c s]; [done|].
  cbn [numeral] in Hs. apply andb_prop in Hs as [[d Hd]%bool_decide_eq_true _].
  by destruct (digit_plain _ _ Hd) as (_ & -> & ->).
Qed.





Lemma int_str (n : N) : int (pretty n) = Some (Z.of_N n).
Proof.
  rewrite int_numeral by auto using numeral_pretty, pretty_nonempty.
  apply digits_pretty.
Qed.

Lemma str_nonneg (n : Z) : (0 <= n)%Z -> str n = pretty (Z.to_N n).
Proof.
  intros Hn. unfold str. destruct n as [|p|p]; [done|done|lia].
Qed.

End NumberFacts.

(** ** Natural keys and coercions of the sequencing models *)

Module ModelsFacts.
Import Number NumberFacts.

Lemma prefix_dash c s : String.prefix "-" (String c s) = Ascii.eqb c "-".
Proof.
  cbn [String.prefix]. destruct (ascii_dec "-" c) as [<-|Hne].
  - by destruct s.
  - symmetry. apply Ascii.eqb_neq. congruence.
Qed.

Lemma split_go_dash c s cur :
  Text.split_go "-" (String c s) 0 cur
  = if Ascii.eqb c "-" then cur :: Text.split_go "-" s 0 EmptyString
    else Text.split_go "-" s 0 (cur +:+ String c EmptyString).
Proof.
  cbn [Text.split_go]. rewrite prefix_dash. reflexivity.
Qed.

Lemma contains_dash s : Str.contains "-" s = false <-> Str.dashes s = 0.
Proof.
  induction s as [|c s IH]; [done|].
  cbn [Str.contains Str.dashes]. rewrite prefix_dash.
  destruct (Ascii.eqb c "-"); cbn [orb]; [split; [done|lia]|].
  rewrite IH. simpl. done.
Qed.

Lemma dashes_app s t : Str.dashes (s +:+ t) = Str.dashes s + Str.dashes t.
Proof.
  induction s as [|c s IH]; [done|].
  change (Str.dashes (String c (s +:+ t))
          = (if Ascii.eqb c "-" then 1 else 0) + Str.dashes s + Str.dashes t).
  cbn [Str.dashes]. rewrite IH. lia.
Qed.

Lemma string_app_assoc (a b c : string) : (a +:+ b) +:+ c = a +:+ (b +:+ c).
Proof.
  induction a as [|x a IH]; [done|].
  change (String x ((a +:+ b) +:+ c) = String x (a +:+ (b +:+ c))).
  by rewrite IH.
Qed.

Lemma string_app_nil (a : string) : a +:+ EmptyString = a.
Proof.
  induction a as [|x a IH]; [done|].
  change (String x (a +:+ EmptyString) = String x a). by rewrite IH.
Qed.

Lemma split_go_plain s : forall cur,
  Str.dashes s = 0 -> Text.split_go "-" s 0 cur = [cur +:+ s].
Proof.
  induction s as [|c s IH]; intros cur Hs.
  - cbn [Text.split_go]. by rewrite string_app_nil.
  - rewrite split_go_dash. cbn [Str.dashes] in Hs.
    destruct (Ascii.eqb c "-"); [simpl in Hs; lia|].
    rewrite IH by (simpl in Hs; lia).
    by rewrite string_app_assoc.
Qed.

Lemma split_go_first s t : forall cur,
  Str.dashes s = 0 ->
  Text.split_go "-" (s +:+ "-" +:+ t) 0 cur
  = (cur +:+ s) :: Text.split_go "-" t 0 EmptyString.
Proof.
  induction s as [|c s IH]; intros cur Hs.
  - change (EmptyString +:+ "-" +:+ t) with (String "-" t).
    rewrite split_go_dash. change (Ascii.eqb "-" "-") with true.
    cbn iota. by rewrite string_app_nil.
  - change (String c s +:+ "-" +:+ t) with (String c (s +:+ "-" +:+ t)).
    rewrite split_go_dash. cbn [Str.dashes] in Hs.
    destruct (Ascii.eqb c "-"); [simpl in Hs; lia|].
    rewrite IH by (simpl in Hs; lia).
    by rewrite string_app_assoc.
Qed.

Lemma split_go_length s : forall cur,
  length (Text.split_go "-" s 0 cur) = S (Str.dashes s).
Proof.
  induction s as [|c s IH]; intros cur; [done|].
  rewrite split_go_dash. cbn [Str.dashes].
  destruct (Ascii.eqb c "-"); cbn [length]; rewrite IH; lia.
Qed.

Lemma numeral_dashes s : numeral s = true -> Str.dashes s = 0.
Proof.
  induction s as [|c s IH]; [done|]. cbn [numeral Str.dashes].
  intros [[d Hd]%bool_decide_eq_true Hs]%andb_prop.
  destruct (digit_plain _ _ Hd) as (_ & -> & _). by rewrite IH.
Qed.

Lemma slice_from_app p rest :
  Str.slice_from (String.length p) (p +:+ rest) = rest.
Proof. induction p as [|c p IH]; [by destruct rest|]. cbn. exact IH. Qed.

Section keys.
Context `{Builtins}.

(** X4.  A run is found again by its natural key exactly when its serial
    holds no hyphen and its number is not negative; otherwise the lookup
    stops with the [ValueError] of the unpacking. *)
Theorem run_natural_lookup (serial : string) (number : Z) :
  SequencingRun.natural_lookup (SequencingRun.natural serial number)
  = if Str.contains "-" serial || (number <? 0)%Z
    then Error (Exn ValueError "too many values to unpack (expected 2)")
    else Ok (serial, number).
Proof.
  unfold SequencingRun.natural_lookup, SequencingRun.natural, Text.split.
  destruct (Str.contains "-" serial) eqn:Hc; cbn [orb].
  - pose proof (split_go_length (serial +:+ "-" +:+ str number) EmptyString) as Hlen.
    rewrite !dashes_app in Hlen.
    assert (Str.dashes serial <> 0) as Hs.
    { intros Hz%contains_dash. congruence. }
    destruct (Text.split_go "-" (serial +:+ "-" +:+ str number) 0 EmptyString)
      as [|a [|b [|c l]]]; simpl in Hlen; try lia.
    done.
  - apply contains_dash in Hc.
    rewrite split_go_first by done.
    destruct (Z.ltb_spec number 0) as [Hneg|Hpos].
    + destruct number as [|p|p]; try lia.
      change (str (Z.neg p)) with (String "-" (pretty p)).
      rewrite split_go_dash. cbn.
      pose proof (split_go_length (pretty p) EmptyString) as Hlen.
      destruct (Text.split_go "-" (pretty p) 0 EmptyString) as [|b l];
        [simpl in Hlen; lia|done].
    + rewrite str_nonneg by done.
      rewrite split_go_plain by apply numeral_dashes, numeral_pretty.
      change (EmptyString +:+ serial) with serial.
      change (EmptyString +:+ pretty (Z.to_N number)) with (pretty (Z.to_N number)).
      rewrite int_str.
      by rewrite Z2N.id.
Qed.


(** X6.  [natural_lookup] never examines the first three characters: any
    three characters in place of the prefix give the same result. *)
Theorem asv_prefix_unchecked (p rest : string) :
  String.length p = String.length ASV.PREFIX ->
  ASV.natural_lookup (p +:+ rest) = ASV.natural_lookup (ASV.PREFIX +:+ rest).
Proof.
  intros Hp. unfold ASV.natural_lookup.
  assert (Str.slice_from (String.length ASV.PREFIX) (p +:+ rest) = rest) as ->.
  { rewrite <- Hp. apply slice_from_app. }
  by rewrite slice_from_app.
Qed.

End keys.

Section control.
Context `{Python} `{Builtins}.

(** X7.  [parse_control] returns the blank text or one of the declared
    choices, and the blank text exactly for text that is blank once
    stripped and lowered. *)
Theorem parse_control_choice (txt : string) :
  (Sequencing.parse_control txt = EmptyString
   \/ Sequencing.parse_control txt ∈ (Sequencing.CONTROL_CHOICES).*1)
  /\ (Sequencing.parse_control txt = EmptyString
      <-> lower (strip txt) = EmptyString).
Proof.
  unfold Sequencing.parse_control.
  case_bool_decide as Hb; [split; [by left|by split]|].
  assert (default Sequencing.OTHER
            (List.find (fun i => Str.contains i (lower (strip txt)))
               (Sequencing.CONTROL_CHOICES).*1)
          ∈ (Sequencing.CONTROL_CHOICES).*1) as Hin.
  { destruct (List.find _ _) as [c|] eqn:Hf; cbn [default].
    - apply find_some in Hf as [Hf _]. by apply list_elem_of_In.
    - apply list_elem_of_In. cbn. tauto. }
  split; [by right|]. split; [|done].
  intros He. rewrite He in Hin. apply list_elem_of_In in Hin.
  cbn in Hin. intuition discriminate.
Qed.

(** X8.  A value returned by [parse_control] is parsed to itself, given
    that stripping and lowering leave the choices as they are. *)
Theorem parse_control_idempotent (txt : string) :
  Forall (fun c => lower (strip c) = c)
    (EmptyString :: (Sequencing.CONTROL_CHOICES).*1) ->
  Sequencing.parse_control (Sequencing.parse_control txt)
  = Sequencing.parse_control txt.
Proof.
  intros Hfix.
  destruct (parse_control_choice txt) as [[He|Hin] _].
  - rewrite He. unfold Sequencing.parse_control.
    rewrite (Forall_inv Hfix). done.
  - apply Forall_inv_tail in Hfix.
    rewrite Forall_forall in Hfix.
    pose proof (Hfix _ Hin) as Hc.
    set (r := Sequencing.parse_control txt) in *.
    unfold Sequencing.parse_control. rewrite Hc.
    cbn in Hin.
    repeat (apply elem_of_cons in Hin as [->|Hin]; [reflexivity|]).
    by apply elem_of_nil in Hin.
Qed.

End control.

End ModelsFacts.

(** ** The lists of a column specification *)

Module CSV_SpecShape.
Import CSV_Spec CSV_SpecFacts.

Local Abbreviation used := (fun k : pyobj => negb (is_None k)).

(** What the loop of [setup] keeps true of its lists after [n] rows. *)
Local Abbreviation inv n a :=
  (length (a_all_keys a) = n
   /\ a_keys a = List.filter used (a_all_keys a)
   /\ length (a_conv a) = length (a_keys a)).

Lemma setup_row_inv n a d a' :
  setup_row a d = Ok a' -> inv n a -> inv (S n) a'.
Proof.
  intros Hrow (Hn & Hk & Hc).
  assert (forall k (b : bool) (ks cs : list pyobj),
            ks = (if b then a_keys a else a_keys a ++ [k]) ->
            length cs = (if b then length (a_conv a) else S (length (a_conv a))) ->
            is_None k = b ->
            length (a_all_keys a ++ [k]) = S n
            /\ ks = List.filter used (a_all_keys a ++ [k])
            /\ length cs = length ks) as Hstep.
  { intros k b ks cs -> Hcs Hb.
    rewrite length_app, List.filter_app. cbn [length List.filter].
    rewrite Hb. split; [lia|]. destruct b; cbn [negb].
    - rewrite app_nil_r. split; [done|]. by rewrite Hcs.
    - split; [by rewrite Hk|]. rewrite Hcs, length_app. cbn. lia. }
  destruct d as [[|c [|k conv]]|k]; simpl in Hrow; try done.
  - destruct (is_None k) eqn:Hnone.
    + injection Hrow as <-. by apply (Hstep k true).
    + destruct conv as [|f conv].
      * injection Hrow as <-. apply (Hstep k false); [done| |done].
        cbn. rewrite length_app. cbn. lia.
      * destruct (callable f); [|done]. injection Hrow as <-.
        apply (Hstep k false); [done| |done].
        cbn. rewrite length_app. cbn. lia.
  - destruct (is_None k) eqn:Hnone; injection Hrow as <-.
    + by apply (Hstep k true).
    + apply (Hstep k false); [done| |done].
      cbn. rewrite length_app. cbn. lia.
Qed.

Lemma setup_loop_inv l : forall n a a',
  setup_loop a l = Ok a' -> inv n a -> inv (n + length l) a'.
Proof.
  induction l as [|d l IH]; intros n a a'; simpl.
  - intros [= <-]. by rewrite Nat.add_0_r.
  - destruct (setup_row a d) as [a1|e] eqn:Hrow; [|done]. simpl.
    intros Hloop Ha.
    replace (n + S (length l)) with (S n + length l) by lia.
    eapply IH; [done|]. by eapply setup_row_inv.
Qed.

Lemma cut_keys_full {A} ks : forall row : list A,
  length ks <= length row ->
  length (cut_keys ks row) = length (List.filter used ks).
Proof.
  induction ks as [|k ks IH]; intros row Hlen; [by destruct row|].
  destruct row as [|v row]; [simpl in Hlen; lia|].
  rewrite cut_keys_cons, length_app, IH by (simpl in Hlen; lia).
  cbn [List.filter]. by destruct (is_None k).
Qed.

(** X9.  A constructed specification keeps its lists in step: one key
    per declared column, the used keys being those that are not [None]
    in declaration order, one converter slot per used key; and [cut]
    returns exactly one value per used key for a row that has at least
    as many fields as columns are declared. *)
Theorem spec_shape (column_specs : list column_spec) (s : t) :
  __init__ column_specs = Ok s ->
  length (all_keys s) = len s
  /\ keys s = List.filter (fun k => negb (is_None k)) (all_keys s)
  /\ length (convfuncs s) = length (keys s)
  /\ forall row : list string,
       len s <= length row -> length (cut s row) = length (keys s).
Proof.
  unfold __init__, setup. intros Hinit.
  destruct column_specs as [|d l]; [done|].
  destruct (setup_loop acc0 (d :: l)) as [a|e] eqn:Hloop; [|done].
  injection Hinit as <-. unfold len, cut. cbn [_spec all_keys keys convfuncs].
  destruct (setup_loop_inv (d :: l) 0 acc0 a Hloop) as (Hn & Hk & Hc); [done|].
  split_and!; [done|done|done|].
  intros row Hrow. rewrite cut_keys_full by lia. by rewrite Hk.
Qed.

Lemma spec_shape_witness :
  exists s,
    __init__ [Tuple [PStr "Sample"; PStr "sample_id"]; Plain PNone] = Ok s
    /\ length (all_keys s) = len s
    /\ keys s = List.filter (fun k => negb (is_None k)) (all_keys s)
    /\ length (convfuncs s) = length (keys s)
    /\ forall row : list string,
         len s <= length row -> length (cut s row) = length (keys s).
Proof.
  eexists. split; [reflexivity|].
  apply (spec_shape [Tuple [PStr "Sample"; PStr "sample_id"]; Plain PNone]).
  reflexivity.
Defined.

End CSV_SpecShape.

(** ** Rows, headers and the exceptions of a run *)

Module RowFacts.
Import Store AbstractLoader GeneralLoader DictFacts.

(** X10.  [get_from_row] returns, for each of the requested keys, the
    entry that the row has for it, and nothing else. *)
Theorem get_from_row_lookup (keys : list string) (s : AbstractLoader.t) (k : string) :
  Dict.get (get_from_row keys s) k
  = if bool_decide (k ∈ keys) then Dict.get (row s) k else None.
Proof.
  unfold get_from_row.
  assert (forall acc,
            Dict.get (foldl (fun ret i =>
                               match Dict.get (row s) i with
                               | Some v => Dict.set ret i v
                               | None => ret
                               end) acc keys) k
            = if bool_decide (k ∈ keys)
              then match Dict.get (row s) k with
                   | Some v => Some v
                   | None => Dict.get acc k
                   end
              else Dict.get acc k) as Hacc.
  { induction keys as [|i keys IH]; intros acc.
    - done.
    - cbn [foldl]. rewrite IH.
      destruct (decide (k ∈ keys)) as [Hin|Hnin].
      + rewrite !bool_decide_eq_true_2 by (try apply elem_of_cons; auto).
        destruct (Dict.get (row s) k) as [v|] eqn:Hk; [done|].
        destruct (Dict.get (row s) i) as [vi|] eqn:Hi; [|done].
        rewrite get_set. destruct (decide (i = k)) as [->|]; [congruence|done].
      + rewrite (bool_decide_eq_false_2 (k ∈ keys)) by done.
        destruct (decide (i = k)) as [->|Hne].
        * rewrite bool_decide_eq_true_2 by (by apply elem_of_cons; left).
          destruct (Dict.get (row s) k) as [v|] eqn:Hk; [|done].
          rewrite get_set. by rewrite decide_True.
        * rewrite bool_decide_eq_false_2
            by (intros [->|?]%elem_of_cons; done).
          destruct (Dict.get (row s) i) as [vi|]; [|done].
          rewrite get_set. by rewrite decide_False. }
  rewrite Hacc. destruct (bool_decide (k ∈ keys)); [|done].
  by destruct (Dict.get (row s) k).
Qed.

Section general.
Context `{Registry}.

(** X11.  [row_with_missing_columns] keeps every entry of the row and adds
    a blank for exactly the declared accessors that the row does not
    have. *)
Theorem row_with_missing_columns_lookup (s : AbstractLoader.t) (k : string) :
  Dict.get (row_with_missing_columns s) k
  = match Dict.get (row s) k with
    | Some v => Some v
    | None => if bool_decide (k ∈ cols_of.*2) then Some EmptyString else None
    end.
Proof.
  unfold row_with_missing_columns. generalize (row s) as acc.
  induction cols_of as [|[col accr] cols IH]; intros acc.
  - cbn. by destruct (Dict.get acc k).
  - cbn [foldl]. rewrite IH. cbn [snd fmap list_fmap].
    unfold Dict.mem.
    destruct (Dict.get acc accr) as [va|] eqn:Ha.
    + destruct (Dict.get acc k) as [v|] eqn:Hk; [done|].
      destruct (decide (k ∈ cols.*2)) as [Hin|Hnin].
      * rewrite !bool_decide_eq_true_2 by (try apply elem_of_cons; auto). done.
      * rewrite !bool_decide_eq_false_2; [done| |done].
        intros [->|?]%elem_of_cons; [congruence|done].
    + rewrite get_set. destruct (decide (accr = k)) as [->|Hne].
      * rewrite Ha. by rewrite bool_decide_eq_true_2 by (by apply elem_of_cons; left).
      * destruct (Dict.get acc k) as [v|]; [done|].
        destruct (decide (k ∈ cols.*2)) as [Hin|Hnin].
        -- rewrite !bool_decide_eq_true_2 by (try apply elem_of_cons; auto). done.
        -- rewrite !bool_decide_eq_false_2; [done| |done].
           intros [->|?]%elem_of_cons; done.
Qed.

End general.

Section loader.
Context `{Python} `{Models} `{Subclass}.

(** X12.  The row that [process_line] hands to [process_row] has one entry
    per key, only keys that [COLS] declares, and only values that are
    not missing; each value is the stripped field of the line in a
    column whose internal name is the key. *)
Theorem read_line_row (line : string) (s s' : AbstractLoader.t) :
  read_line line s = Some s' ->
  NoDup (Dict.keys (row s'))
  /\ forall k v, Dict.get (row s') k = Some v ->
       non_empty v = true
       /\ k ∈ COLS.*2
       /\ exists fields i f,
            Text.split (strip line) (sep s) = Some fields
            /\ cols s !! i = Some k /\ fields !! i = Some f /\ v = strip f.
Proof.
  unfold read_line. cbn.
  destruct (Text.split (strip line) (sep s)) as [fields|] eqn:Hsplit; [|done].
  intros [= <-]. cbn. unfold normalize. split; [apply of_pairs_nodup|].
  intros k v Hget%get_elem%of_pairs_elem.
  apply list_elem_of_In, List.filter_In in Hget as [Hzip Hok].
  apply list_elem_of_In in Hzip.
  apply andb_prop in Hok as [Hne Hvalid%bool_decide_eq_true]. cbn in *.
  split_and!; [done|done|].
  apply elem_of_lookup_zip_with in Hzip as (i & k' & v' & [= <- <-] & Hk & Hv).
  rewrite list_lookup_fmap in Hv.
  destruct (fields !! i) as [f|] eqn:Hf; [|done]. injection Hv as <-.
  by exists fields, i, f.
Qed.

(** One step of the loop over [colnames] in [__init__]. *)
Local Abbreviation step _cols :=
  (fun (acc : list string * list string) (i : string) =>
     match Dict.get _cols (casefold i) with
     | Some j => (acc.1 ++ [j], acc.2)
     | None => (acc.1 ++ [i], acc.2 ++ [i])
     end).

Lemma match_columns_acc (_cols : Dict.t string) colnames : forall acc,
  let r := foldl (step _cols) acc colnames in
  r.1 = acc.1 ++ ((fun i => default i (Dict.get _cols (casefold i))) <$> colnames)
  /\ r.2 = acc.2 ++ List.filter (fun i => negb (Dict.mem _cols (casefold i))) colnames.
Proof.
  induction colnames as [|i l IH]; intros acc; cbn zeta.
  - cbn. by rewrite !app_nil_r.
  - cbn [foldl]. destruct (IH (step _cols acc i)) as [-> ->].
    unfold Dict.mem. cbn [fmap list_fmap List.filter].
    destruct (Dict.get _cols (casefold i)) as [j|]; cbn;
      by rewrite <- !app_assoc.
Qed.

(** X13.  Header matching gives every input header one internal name, at
    its position: the key of a declaration whose header is the same
    once casefolded, in which case the header is not reported as
    ignored, or the header itself when no declared header matches, in
    which case it is reported. *)
Theorem match_columns_casefold (cols_decl : list (string * string))
    (colnames : list string) :
  let r := match_columns cols_decl colnames in
  length r.1 = length colnames
  /\ forall n i, colnames !! n = Some i ->
       (exists h j, (h, j) ∈ cols_decl /\ casefold h = casefold i
                    /\ r.1 !! n = Some j /\ i ∉ r.2)
       \/ ((forall h j, (h, j) ∈ cols_decl -> casefold h <> casefold i)
           /\ r.1 !! n = Some i /\ i ∈ r.2).
Proof.
  cbn zeta. unfold match_columns.
  set (_cols := Dict.of_pairs ((fun ij => (casefold ij.1, ij.2)) <$> cols_decl)).
  destruct (match_columns_acc _cols colnames ([], [])) as [Hc Hi].
  cbn zeta in Hc, Hi. rewrite Hc, Hi. cbn [fst snd app].
  split; [by rewrite length_fmap|].
  intros n i Hn. rewrite list_lookup_fmap, Hn. cbn.
  destruct (Dict.get _cols (casefold i)) as [j|] eqn:Hget.
  - left. pose proof Hget as Hget0. apply get_elem, of_pairs_elem in Hget.
    apply list_elem_of_fmap in Hget as ([h j'] & [= Hh ->] & Hin).
    exists h, j'. split_and!; [done|done|done|].
    intros [_ Hf]%list_elem_of_In%List.filter_In.
    unfold Dict.mem in Hf. by rewrite Hget0 in Hf.
  - right. split_and!; [|done|].
    + intros h j Hin Heq.
      assert (casefold i ∈ Dict.keys _cols) as Hk.
      { apply of_pairs_keys. rewrite <- list_fmap_compose.
        apply list_elem_of_fmap. exists (h, j). by split. }
      apply get_some_keys in Hk as [? Hk]. congruence.
    + apply list_elem_of_In, List.filter_In. split.
      * apply list_elem_of_In. by eapply list_elem_of_lookup_2.
      * unfold Dict.mem. by rewrite Hget.
Qed.

(** X14.  [process_file] is all or nothing: when it raises, the exception
    is a [UserDataError] or a [RuntimeError], and the database is as it
    was before the call. *)
Theorem process_file_raises (name : string) (lines : list string) (w : world)
    (e : exn) (w' : world) :
  process_file name lines w = (Error e, w') ->
  (exn_type e = UserDataError \/ exn_type e = RuntimeError)
  /\ db_of w' = db_of w.
Proof.
  unfold process_file.
  set (w0 := with_self _ w).
  destruct (atomic (run_lines lines) w0) as [[] w1|e1 w1] eqn:Hrun; [done|].
  pose proof (DriverFacts.atomic_raised_db _ _ _ _ Hrun) as Hdb.
  destruct (exn_type e1) eqn:Hty; intros [= <- <-]; cbn; auto.
Qed.

Lemma manage_warning_warn err msg s :
  warn_on_error (manage_warning err msg s) = warn_on_error s.
Proof.
  unfold manage_warning.
  destruct (last_warning s) as [[[[e0 m0] f0] l0]|]; [|done].
  destruct (_ && _); done.
Qed.

Lemma process_line_warn (K : assigns_row_and_rec_only) l w :
  warn_on_error (self w) = true ->
  warn_on_error (self (final (process_line l w))) = true
  /\ forall e w', process_line l w = Raised e w' -> user_error (exn_type e) = false.
Proof.
  intros Hwarn. unfold process_line.
  destruct (read_line l (self w)) as [s|] eqn:Hs.
  - destruct (DriverFacts.row_processed_self K l w s Hs) as (r & c & Hself).
    cbn zeta. destruct (atomic AbstractLoader.process_row _) as [[] w0|e0 w0]; cbn in Hself.
    + cbn. rewrite Hself. done.
    + unfold on_error. rewrite Hself. cbn [warn_on_error set_rec set_row set_linenum].
      rewrite Hwarn. cbn [negb].
      destruct (user_error (exn_type e0)) eqn:Hu; cbn.
      * rewrite manage_warning_warn. split; [exact Hwarn|done].
      * split; [by rewrite Hself|]. intros e w' [= <- _]. exact Hu.
  - cbn. split; [done|]. by intros e w' [= <- _].
Qed.

Lemma process_lines_warn (K : assigns_row_and_rec_only) lines : forall w e w',
  warn_on_error (self w) = true ->
  (process_lines lines w).1 = Raised e w' -> user_error (exn_type e) = false.
Proof.
  induction lines as [|l lines IH]; intros w e w' Hwarn; simpl; [done|].
  destruct (process_line_warn K l w Hwarn) as [Hw Hr].
  destruct (process_line l w) as [[] w1|e1 w1].
  - by apply IH.
  - intros [= <- <-]. by eapply Hr.
Qed.

(** X15.  With warnings on, a run is never given up for an error in the
    data: when [process_file] raises then, it raises a [RuntimeError]. *)
Theorem warn_mode_raises_runtime_error (K : assigns_row_and_rec_only)
    (name : string) (lines : list string) (w : world) (e : exn) (w' : world) :
  warn_on_error (self w) = true ->
  process_file name lines w = (Error e, w') ->
  exn_type e = RuntimeError.
Proof.
  intros Hwarn. unfold process_file.
  set (w0 := with_self _ w).
  assert (warn_on_error (self w0) = true) as Hw0 by done.
  unfold atomic, run_lines.
  destruct (process_lines lines w0).1 as [[] w1|e1 w1] eqn:Hl.
  - destruct (dry_run (self w1)); by cbn.
  - pose proof (process_lines_warn K _ _ _ _ Hw0 Hl) as Hu.
    cbn. destruct (exn_type e1); try done; by intros [= <- _].
Qed.

End loader.

End RowFacts.

(** ** What a row and a run leave in place *)

Module FrameFacts.
Import GeneralLoader Store AbstractLoader AccountFacts StoreFacts.

Lemma retains_refl d : retains d d.
Proof. split_and!; [eauto|done|done]. Qed.

Lemma retains_trans d1 d2 d3 : retains d1 d2 -> retains d2 d3 -> retains d1 d3.
Proof.
  intros (Hr & Hl & Hh) (Hr' & Hl' & Hh'). split_and!.
  - intros e He. destruct (Hr e He) as (e1 & He1 & Hm & Hp).
    destruct (Hr' e1 He1) as (e2 & He2 & Hm' & Hp').
    exists e2. split_and!; [done|congruence..].
  - auto.
  - by etrans.
Qed.

Lemma grows_trans l h1 h2 h3 : grows l h1 h2 -> grows l h2 h3 -> grows l h1 h3.
Proof.
  intros H12 H23. induction H23 as [|h' c k _ IH|h' k x _ IH]; [done|..].
  - by apply grows_incr.
  - by apply grows_append.
Qed.

Section account.
Context `{Python} `{Models}.

Lemma save_retains d obj o d' : save d obj = Ok (o, d') -> retains d d'.
Proof.
  unfold save. destruct (db_constraint d obj); [done|]. intros [= <- <-].
  set (pk := match i_pk obj with Some pk => pk | None => _ end).
  split_and!; cbn [rows m2m history].
  - intros e He.
    assert ((e_model e, e_pk e)
            ∈ (fun e => (e_model e, e_pk e))
              <$> put (rows d) (Entity (i_model obj) pk (i_attrs obj))) as Hin.
    { rewrite put_ids. destruct (existsb _ _).
      - apply list_elem_of_fmap. by exists e.
      - apply elem_of_app. left. apply list_elem_of_fmap. by exists e. }
    apply list_elem_of_fmap in Hin as (e' & [= Hm Hp] & He').
    exists e'. by split_and!.
  - done.
  - by apply prefix_app_r.
Qed.

Lemma clean_and_save_retains obj w :
  retains (db_of w) (db_of (final (clean_and_save obj w))).
Proof.
  unfold clean_and_save. destruct (full_clean _ _); [apply retains_refl|].
  destruct (save (db_of w) obj) as [[o d']|e] eqn:Hsave; [|apply retains_refl].
  cbn. by eapply save_retains.
Qed.

Lemma account_retains obj is_new fr w :
  retains (db_of w) (db_of (final (account obj is_new fr w))).
Proof.
  unfold account. set (body := if is_new then _ else _).
  assert (retains (db_of w) (db_of (final body))) as Hbody.
  { unfold body. destruct is_new.
    { apply (clean_and_save_retains _ (with_heap _ w)). }
    destruct fr as [fr|]; [|apply retains_refl].
    destruct (compare _ fr) as [consistent diff].
    destruct diff as [|k diff]; [apply retains_refl|].
    destruct (consistent || can_overwrite (self w)).
    - destruct consistent; apply (clean_and_save_retains _ (with_heap _ w)).
    - destruct consistent; apply retains_refl. }
  destruct body; exact Hbody.
Qed.

Lemma account_grows obj is_new fr w :
  grows (changed (self w)) (heap_of w)
        (heap_of (final (account obj is_new fr w))).
Proof.
  unfold account. set (body := if is_new then _ else _).
  assert (grows (changed (self w)) (heap_of w) (heap_of (final body))) as Hbody.
  { unfold body. destruct is_new.
    { rewrite clean_and_save_heap. apply grows_incr, grows_refl. }
    destruct fr as [fr|]; [|apply grows_refl].
    destruct (compare _ fr) as [consistent diff].
    destruct diff as [|k diff]; [apply grows_refl|].
    destruct consistent; cbn [orb].
    - rewrite clean_and_save_heap. apply grows_incr, grows_refl.
    - destruct (can_overwrite (self w)).
      + rewrite clean_and_save_heap. apply grows_append, grows_refl.
      + apply grows_append, grows_refl. }
  destruct body; exact Hbody.
Qed.

(** X16.  An object that is new is counted once under its model, checked
    and saved under the next primary key of its table with the audit
    entry of the line, and is entered in the record of the row; the
    proposed values [from_row] are not looked at. *)
Theorem account_new (obj : instance) (from_row : option (Dict.t value)) (w : world) :
  let entry := audit_entry (self w) in
  let model := i_model obj in
  let pk := fresh_pk model (rows (db_of w)) in
  let c := counter_at (heap_of w) (new (self w)) in
  i_pk obj = None ->
  passes (db_of w) (add_change_record obj entry) ->
  exists w',
    account obj true from_row w
    = Done (Inst model (Some pk) (i_attrs obj) (Some entry)) w'
    /\ heap_of w' = counter_incr (new (self w)) model (heap_of w)
    /\ counter_at (heap_of w') (new (self w)) = <[model := S (default 0 (c !! model))]> c
    /\ rows (db_of w') = rows (db_of w) ++ [Entity model pk (i_attrs obj)]
    /\ (forall e, e ∈ rows (db_of w) -> e_model e = model -> e_pk e < pk)
    /\ history (db_of w') = history (db_of w) ++ [(model, pk, entry)]
    /\ m2m (db_of w') = m2m (db_of w)
    /\ self w' = set_rec (Dict.set (rec (self w)) model (VObj model (Some pk))) (self w).
Proof.
  intros entry model pk c Hpk [Hclean Hcons].
  unfold account. cbn [obind]. fold entry.
  unfold clean_and_save. cbn [db_of with_heap].
  rewrite Hclean. unfold save. rewrite Hcons. cbn [i_pk add_change_record].
  rewrite Hpk. cbn [i_model i_attrs i_change obind].
  fold model. fold pk.
  set (e := Entity model pk (i_attrs obj)).
  assert (existsb (same_row (e_model e) (e_pk e)) (rows (db_of w)) = false) as Hfresh.
  { apply not_true_iff_false. intros (x & Hx & Hs)%existsb_exists.
    apply same_row_spec in Hs as [= Hm Hp]. apply list_elem_of_In in Hx.
    pose proof (fresh_pk_above _ _ _ Hx Hm) as Hlt.
    cbn in Hp. unfold pk in Hp. lia. }
  eexists. split; [reflexivity|].
  cbn [heap_of db_of self with_self with_db with_heap rows history m2m ref
       i_model i_pk audit i_change].
  change (i_model (add_change_record obj entry)) with model.
  change (i_attrs (add_change_record obj entry)) with (i_attrs obj).
  change (i_change (add_change_record obj entry)) with (Some entry).
  change (fresh_pk model (rows (db_of w))) with pk.
  change (Entity model pk (i_attrs obj)) with e.
  rewrite (put_fresh _ e Hfresh).
  split_and!; try done.
  - apply counter_incr_at.
  - intros x Hx Hm. by apply fresh_pk_above.
Qed.

End account.

Section general.
Context `{Python} `{Models} `{Registry}.

(** From [w] to [w']: only [self.rec] is assigned, the counters and
    change lists only grow, and the database retains what it had. *)
Local Abbreviation frame w w' :=
  ((exists c, self w' = set_rec c (self w))
   /\ grows (changed (self w)) (heap_of w) (heap_of w')
   /\ retains (db_of w) (db_of w')).

Lemma frame_refl w : frame w w.
Proof.
  split_and!; [apply GeneralLoaderFacts.rec_only_refl|apply grows_refl
              |apply retains_refl].
Qed.

Lemma frame_trans w1 w2 w3 : frame w1 w2 -> frame w2 w3 -> frame w1 w3.
Proof.
  intros ([c Hc] & Hg & Hr) ([c' Hc'] & Hg' & Hr'). split_and!.
  - exists c'. by rewrite Hc', Hc.
  - rewrite Hc in Hg'. by eapply grows_trans.
  - by eapply retains_trans.
Qed.

Lemma obind_frame {A B} (m : outcome A) (k : A -> world -> outcome B) w :
  frame w (final m) ->
  (forall a w1, frame w1 (final (k a w1))) ->
  frame w (final (obind m k)).
Proof.
  intros Hm Hk. destruct m as [a w1|e w1]; cbn in *; [|done].
  eapply frame_trans; [exact Hm|apply Hk].
Qed.

Lemma add_m2ms_frame obj m2ms : forall w, frame w (final (add_m2ms obj m2ms w)).
Proof.
  induction m2ms as [|[k v] m2ms IH]; intros w; cbn [add_m2ms]; [apply frame_refl|].
  destruct (m2m_add (db_of w) obj k v) as [d|e] eqn:Hadd; [|apply frame_refl].
  eapply frame_trans; [|exact (IH (with_db d w))].
  split_and!; [exact (GeneralLoaderFacts.rec_only_refl w)|apply grows_refl|].
  cbn. unfold m2m_add in Hadd. destruct (i_pk obj) as [pk|]; [|done].
  destruct (existsb _ _); injection Hadd as <-; [apply retains_refl|].
  split_and!; cbn; [eauto| |done].
  intros l Hl. apply elem_of_app. by left.
Qed.

Lemma reconcile_frame k v model w : frame w (final (reconcile k v model w)).
Proof.
  unfold reconcile.
  destruct (split_fields model v) as [[[id_arg data] m2ms]|e]; [|apply frame_refl].
  apply obind_frame.
  { unfold find. destruct (Dict.get id_arg "natural"); [|apply frame_refl].
    destruct (natural_error _ _); apply frame_refl. }
  intros r w1. apply obind_frame; [destruct r; apply frame_refl|].
  intros on w2. apply obind_frame.
  { split_and!; [apply GeneralLoaderFacts.account_self|apply account_grows
                |apply account_retains]. }
  intros obj w3. apply obind_frame; [apply add_m2ms_frame|].
  intros _ w4. cbn. split_and!; [eauto|apply grows_refl|apply retains_refl].
Qed.

Lemma visit_frame k w : frame w (final (visit k w)).
Proof.
  unfold visit. destruct (DeepRecord.get _ _); [|apply frame_refl].
  destruct (get_model k); [|apply frame_refl].
  rewrite GeneralLoaderFacts.guard_final. apply reconcile_frame.
Qed.

Lemma visit_all_frame ks : forall w, frame w (final (visit_all ks w)).
Proof.
  induction ks as [|k ks IH]; intros w; cbn [visit_all]; [apply frame_refl|].
  apply obind_frame; [apply visit_frame|]. intros _ w1. apply IH.
Qed.

(** Building the record touches neither the heap nor the database. *)
Lemma build_rec_frame row : forall w,
  heap_of (final (build_rec row w)) = heap_of w
  /\ db_of (final (build_rec row w)) = db_of w.
Proof.
  induction row as [|[k v] row IH]; intros w; cbn [build_rec]; [done|].
  unfold parse_value. destruct (partition k) as [pref a].
  destruct (parse_fun a) as [f|]; [|exact (IH (with_self _ w))].
  destruct (f v) as [[]|e]; cbn [obind]; try exact (IH _); try exact (IH (with_self _ w)).
  by destruct (bool_decide _).
Qed.

(** X17.  Whether it completes or raises, [GeneralLoader.process_row]
    assigns no attribute of the loader but [self.rec], only increments
    counters and appends to change lists, and deletes nothing: every row
    of the database is still there under its model and primary key,
    every link is still there, and the audit trail is only extended. *)
Theorem process_row_frame (w : world) :
  let w' := final (GeneralLoader.process_row w) in
  (exists c, self w' = set_rec c (self w))
  /\ grows (changed (self w)) (heap_of w) (heap_of w')
  /\ retains (db_of w) (db_of w').
Proof.
  cbn zeta. unfold GeneralLoader.process_row. apply obind_frame.
  - destruct (build_rec_frame (row (self w)) (with_self (set_rec []) w)) as [Hh Hd].
    split_and!.
    + eapply GeneralLoaderFacts.rec_only_trans;
        [|apply GeneralLoaderFacts.build_rec_rec_only]. cbn. eauto.
    + rewrite Hh. apply grows_refl.
    + rewrite Hd. apply retains_refl.
  - intros _ w1. apply visit_all_frame.
Qed.

End general.

Section driver.
Context `{Python} `{Models} `{Subclass}.

(** X18.  A warning that is held back when the file ends is never
    reported.  In particular, when the lines of a file all fail with one
    and the same text while warnings are on, the run returns statistics
    that count every line and hold no warning for them. *)
Theorem trailing_failures_unreported (K : assigns_row_and_rec_only)
    (name : string) (l : string) (lines : list string) (msg : string)
    (c : exn_class) (cs : list exn_class) (w : world) :
  let w0 := with_self (fun s => set_last_warning None
                                  (set_linenum 1 (set_file name s))) w in
  all_fail (l :: lines) msg w0 (c :: cs) ->
  exists st w',
    process_file name (l :: lines) w = (Ok st, w')
    /\ st_count st = count (self w) + S (length lines)
    /\ st_warnings st = warnings (self w)
    /\ last_warning (self w') = Some (type_name c, msg, 2, 2 + length lines).
Proof.
  intros w0 [Hf Hall].
  destruct (DriverFacts.process_line_fails K l w0 c msg Hf)
    as (w1 & Hl & Hdb & Hln & Hc & Hw).
  cbn [last_warning self w0 with_self set_last_warning] in Hw.
  change (last_warning (self w0)) with (@None (string * string * nat * nat)) in Hw.
  destruct Hw as [Hw Hlast].
  rewrite Hl in Hall. cbn [final] in Hall.
  assert (linenum (self w1) = 2) as Hln1 by (rewrite Hln; reflexivity).
  assert (last_warning (self w1) = Some (type_name c, msg, 2, linenum (self w1))) as Hlast1.
  { rewrite Hlast, Hln1. reflexivity. }
  destruct (DriverFacts.all_fail_pending K msg lines w1 cs (type_name c) 2 Hall Hlast1)
    as (Hlw & Hws & Hlns).
  assert (exists w2, (process_lines (l :: lines) w0).1 = Done () w2
                     /\ w2 = final (process_lines lines w1).1) as (w2 & Hrun & Hw2).
  { cbn [process_lines]. rewrite Hl.
    assert (forall ls w cs, all_fail ls msg w cs ->
              exists w2, (process_lines ls w).1 = Done () w2) as Hdone.
    { induction ls as [|x ls IH]; intros wa csa Ha; cbn [process_lines]; [eauto|].
      destruct csa as [|ca csa]; [done|]. destruct Ha as [Hfa Ha].
      destruct (DriverFacts.process_line_fails K x wa ca msg Hfa) as (wb & Hb & _).
      rewrite Hb in *. cbn [final] in Ha. eauto. }
    destruct (Hdone lines w1 cs Hall) as [w2 Hw2].
    exists w2. rewrite Hw2. done. }
  pose proof (DriverFacts.process_lines_done_count K _ _ _ Hrun) as Hcount.
  unfold process_file. fold w0. unfold atomic, run_lines. rewrite Hrun.
  subst w2.
  destruct (dry_run (self (final (process_lines lines w1).1))); cbn.
  - eexists _, _. split; [reflexivity|]. cbn.
    rewrite Hcount, Hws, Hw, Hlw, Hln1. cbn. split_and!; first [done|f_equal; lia].
  - eexists _, _. split; [reflexivity|]. cbn.
    rewrite Hcount, Hws, Hw, Hlw, Hln1. cbn. split_and!; first [done|f_equal; lia].
Qed.

End driver.

End FrameFacts.

(** ** Values that do not parse *)

Module ParseFacts.
Import GeneralLoader Store AbstractLoader DictFacts.

Section general.
Context `{Python} `{Models} `{Registry}.

(** The text of the [UnboundLocalError] of [parse_value]. *)
Local Abbreviation unbound := "local variable 'col' referenced before assignment".

Lemma build_rec_parse_failure row : forall w k v f e,
  (forall k v, (k, v) ∈ row -> k ∈ cols_of.*2) ->
  (k, v) ∈ row -> parse_fun (partition k).2 = Some f -> f v = Error e ->
  exists w', build_rec row w = Raised (Exn UnboundLocalError unbound) w'
             /\ db_of w' = db_of w.
Proof.
  induction row as [|[k0 v0] row IH]; intros w k v f e Hvalid Hin Hf He.
  { by apply elem_of_nil in Hin. }
  assert (forall k1 v1, (k1, v1) ∈ row -> k1 ∈ cols_of.*2) as Hvalid'.
  { intros k1 v1 Hk1. apply (Hvalid k1 v1). by apply elem_of_cons; right. }
  assert (forall w1, db_of w1 = db_of w -> (k, v) ∈ row ->
            exists w', build_rec row w1 = Raised (Exn UnboundLocalError unbound) w'
                       /\ db_of w' = db_of w) as Hrest.
  { intros w1 Hdb Hin'. destruct (IH w1 k v f e Hvalid' Hin' Hf He) as (w' & Hb & Hd).
    exists w'. split; [done|congruence]. }
  cbn [build_rec]. unfold parse_value.
  destruct (partition k0) as [pref a] eqn:Hp.
  destruct (parse_fun a) as [f0|] eqn:Hf0.
  - destruct (f0 v0) as [r|e0] eqn:Hr.
    + assert ((k, v) ∈ row) as Hin'.
      { apply elem_of_cons in Hin as [[= -> ->]|Hin]; [|done].
        rewrite Hp in Hf. cbn in Hf. congruence. }
      destruct r; cbn [obind]; by apply Hrest.
    + rewrite bool_decide_eq_true_2.
      * cbn [obind]. by exists w.
      * apply (Hvalid k0 v0). by apply elem_of_cons; left.
  - cbn [obind].
    assert ((k, v) ∈ row) as Hin'.
    { apply elem_of_cons in Hin as [[= -> ->]|Hin]; [|done].
      rewrite Hp in Hf. cbn in Hf. congruence. }
    by apply Hrest.
Qed.

Lemma normalize_valid cols fields k v :
  (k, v) ∈ normalize cols fields -> k ∈ COLS.*2.
Proof.
  unfold normalize. intros Hin%of_pairs_elem.
  apply list_elem_of_In, List.filter_In in Hin as [_ Hok].
  by apply andb_prop in Hok as [_ Hvalid%bool_decide_eq_true].
Qed.

(** X19.  A value that a parsing method of the data set rejects is never
    reported as an error in the data.  The handler of [parse_value]
    finds the column of every key of a row and then reads a variable
    that it has not bound, so [process_line] raises
    [UnboundLocalError], with warnings on as well as off, and leaves
    the database as it was. *)
Theorem parse_failure_aborts (line : string) (w : world) (s : AbstractLoader.t)
    (k v : string) (f : string -> result value) (e : exn) :
  read_line line (self w) = Some s ->
  Dict.get (row s) k = Some v ->
  parse_fun (partition k).2 = Some f ->
  f v = Error e ->
  exists s' w',
    process_line line w = Raised (Exn UnboundLocalError (at_line s' unbound)) w'
    /\ db_of w' = db_of w.
Proof.
  intros Hs Hget Hf He.
  unfold process_line. rewrite Hs. cbn zeta.
  assert (forall k v, (k, v) ∈ row s -> k ∈ cols_of.*2) as Hvalid.
  { unfold read_line in Hs. destruct (Text.split _ _) as [fields|]; [|done].
    injection Hs as <-. cbn [row set_rec set_row]. intros k1 v1.
    apply normalize_valid. }
  destruct (build_rec_parse_failure (row s) (with_self (set_rec [])
              (with_self (fun _ => s) w)) k v f e Hvalid (get_elem _ _ _ Hget) Hf He)
    as (w1 & Hb & Hdb).
  unfold atomic. change (AbstractLoader.process_row (with_self (fun _ => s) w))
    with (GeneralLoader.process_row (with_self (fun _ => s) w)).
  unfold GeneralLoader.process_row.
  change (row (self (with_self (fun _ => s) w))) with (row s).
  rewrite Hb. cbn [obind]. unfold on_error. cbn [exn_type user_error exn_msg].
  eexists _, _. split; [reflexivity|]. done.
Qed.

End general.

End ParseFacts.

(** ** The small installation at work *)

Module Examples.
Import GeneralLoader Store AbstractLoader Demo.

(** C3, on the code: in warn-on-error mode the row of [invalid "S2"]
    creates a participant and a sample and then fails validation.  The
    line is skipped and the database is rolled back, yet the run's [new]
    counter, empty before the line, keeps the two creations: the
    "backup" of [process_line] copied the reference to the counter, and
    the counter itself was incremented in place. *)
Theorem failed_line_keeps_counts :
  let w := loader header false true false empty_db in
  let w' := final (process_line (invalid "S2") w) in
  completes (process_line (invalid "S2") w) = true
  /\ rows (db_of w') = []
  /\ new (self w') = new (self w)
  /\ map_to_list (counter_at (heap_of w) (new (self w))) = []
  /\ counter_at (heap_of w') (new (self w')) !! "participant" = Some 1
  /\ counter_at (heap_of w') (new (self w')) !! "sample" = Some 1.
Proof.
  cbv zeta. split_and!.
  1: vm_compute; reflexivity.
  1: vm_compute; reflexivity.
  1: vm_compute; reflexivity.
  1: vm_compute; reflexivity.
  1: vm_compute; reflexivity.
  vm_compute; reflexivity.
Qed.

(** C4 as stated fails: five consecutive lines with one and the same
    error leave no entry in the warnings of the report, since the warning
    held back is never emitted at the end of the file; followed by a line
    with another error they leave two entries, and none for that line. *)
Lemma five_identical_errors :
  returned st_warnings
    (process_file "f.tsv" five_invalid
       (loader header false true false empty_db)).1 = Some []
  /\ returned st_warnings
       (process_file "f.tsv" (five_invalid ++ [unparsable])
          (loader header false true false empty_db)).1
     = Some [skipping_row 2 not_valid "ValidationError"; and_for_next 4].
Proof.
  split.
  - vm_compute; reflexivity.
  - vm_compute; reflexivity.
Qed.

(** C6, on the code: in warn-on-error mode, with two participants stored
    under the natural key [P1], the row of [good] is ambiguous and
    [process_row] raises the [UserDataError] that says so.  The line is
    counted and skipped and the database stays as it was, but the
    warning is only held back: [process_file] returns without emitting
    it, and the warnings of the statistics are empty.  The same line
    followed by a line with another error is reported. *)
Theorem ambiguous_row_unreported :
  let w := loader header true true false two_participants in
  let msg := not_specific [("natural", VStr "P1")] "participant" in
  raised (GeneralLoader.process_row (at_row good w))
  = Some (Exn UserDataError msg)
  /\ returned st_count (process_file "f.tsv" [good] w).1 = Some 1
  /\ returned st_warnings (process_file "f.tsv" [good] w).1 = Some []
  /\ db_of (process_file "f.tsv" [good] w).2 = two_participants
  /\ last_warning (self (process_file "f.tsv" [good] w).2)
     = Some ("UserDataError", msg, 2, 2)
  /\ returned st_warnings (process_file "f.tsv" [good; invalid "S2"] w).1
     = Some [skipping_row 2 msg "UserDataError"].
Proof.
  cbv zeta. split_and!.
  1: vm_compute; reflexivity.
  1: vm_compute; reflexivity.
  1: vm_compute; reflexivity.
  1: vm_compute; reflexivity.
  1: vm_compute; reflexivity.
  vm_compute; reflexivity.
Qed.

(** C7, on the code: the header [sample__site] matches no declared
    header and is listed as ignored, but it is spelled like a semantic
    key, so [process_line] takes the value of its column into the row. *)
Theorem ignored_column_is_read :
  let w := loader ["Sample"; "sample__site"] false true false empty_db in
  ignored_columns (self w) = ["sample__site"]
  /\ row <$> read_line (line ["S1"; "lake"]) (self w)
     = Some [("sample__name", "S1"); ("sample__site", "lake")].
Proof.
  cbv zeta. split.
  - vm_compute; reflexivity.
  - vm_compute; reflexivity.
Qed.

Lemma count_counts_lines_read_witness :
  returned st_count
    (process_file "f.tsv" (good :: five_invalid)
       (loader header false true false empty_db)).1 = Some (0 + 6).
Proof.
  assert (returned (fun _ => tt)
            (process_file "f.tsv" (good :: five_invalid)
               (loader header false true false empty_db)).1 = Some tt) as Hok
    by (vm_compute; reflexivity).
  destruct (process_file "f.tsv" (good :: five_invalid)
              (loader header false true false empty_db)) as [r w'] eqn:Hrun.
  destruct r as [st|e]; [|discriminate]. simpl. f_equal.
  exact (proj2 (DriverFacts.count_counts_lines_read
                  GeneralLoaderFacts.process_row_assigns
                  GeneralLoaderFacts.process_row_no_rollback)
               _ _ _ _ _ Hrun).
Defined.

Lemma dry_run_same_statistics_witness :
  let w := loader header false true false empty_db in
  let on := process_file "f.tsv" (good :: five_invalid)
              (with_self (set_dry_run true) w) in
  let off := process_file "f.tsv" (good :: five_invalid)
               (with_self (set_dry_run false) w) in
  same_statistics on.1 off.1 /\ db_of on.2 = db_of w.
Proof.
  intros w on off.
  apply (DriverFacts.dry_run_same_statistics GeneralLoaderFacts.process_row_blind).
Defined.

Lemma warnings_coalesce_witness :
  let w := loader header false true false empty_db in
  let r := process_file "f.tsv"
             ([invalid "S2"; good] ++ (invalid "S3" :: [invalid "S4"]) ++ []
              ++ unparsable :: [good]) w in
  exists st, r.1 = Ok st
    /\ exists rest,
         st_warnings st
         = [skipping_row 2 not_valid "ValidationError"]
           ++ [skipping_row 4 not_valid "ValidationError"; and_for_next 1] ++ rest.
Proof.
  cbv zeta.
  set (w := loader header false true false empty_db).
  assert (returned (fun _ => tt)
            (process_file "f.tsv"
               ([invalid "S2"; good] ++ (invalid "S3" :: [invalid "S4"]) ++ []
                ++ unparsable :: [good]) w).1 = Some tt) as Hok
    by (vm_compute; reflexivity).
  destruct (process_file "f.tsv"
              ([invalid "S2"; good] ++ (invalid "S3" :: [invalid "S4"]) ++ []
               ++ unparsable :: [good]) w) as [r w'] eqn:Hrun.
  destruct r as [st|e]; [|discriminate].
  exists st. split; [reflexivity|].
  destruct (DriverFacts.warnings_coalesce
              GeneralLoaderFacts.process_row_assigns
              GeneralLoaderFacts.process_row_no_rollback
              "f.tsv" [invalid "S2"; good] (invalid "S3") [invalid "S4"] []
              unparsable [good] not_valid "natural key does not parse"
              ValidationError [ValidationError] UserDataError w st w' Hrun)
    as (_ & _ & _ & _ & rest & Hst).
  - intros e0 m f l Hlast. vm_compute in Hlast. injection Hlast as <- <- <- <-.
    right. intros Hx. vm_compute in Hx. discriminate.
  - split.
    + eexists _, _. split_and!.
      1: vm_compute; reflexivity.
      1: vm_compute; reflexivity.
      1: vm_compute; reflexivity.
      vm_compute; reflexivity.
    + split; [|reflexivity].
      eexists _, _. split_and!.
      1: vm_compute; reflexivity.
      1: vm_compute; reflexivity.
      1: vm_compute; reflexivity.
      vm_compute; reflexivity.
  - exact I.
  - eexists _, _. split_and!.
    1: vm_compute; reflexivity.
    1: vm_compute; reflexivity.
    1: vm_compute; reflexivity.
    vm_compute; reflexivity.
  - left. discriminate.
  - exists rest. rewrite Hst. vm_compute. reflexivity.
Defined.



Lemma ambiguous_lookup_is_user_error_witness :
  raised (GeneralLoader.process_row
            (at_row good (loader header true false false two_participants)))
  = Some (Exn UserDataError (not_specific [("natural", VStr "P1")] "participant")).
Proof.
  set (W := at_row good (loader header true false false two_participants)).
  set (w1 := final (build_rec (row (self W)) (with_self (set_rec []) W))).
  set (ks1 := [["sample"; "name"]; ["sample"; "site"]; ["sample"; "status"]]).
  set (w2 := final (visit_all ks1 w1)).
  assert (build_rec (row (self W)) (with_self (set_rec []) W) = Done () w1) as H1
    by (vm_compute; reflexivity).
  assert (DeepRecord.paths (rec (self w1))
          = ks1 ++ ["sample"; "participant"] :: [["sample"]]) as H2
    by (vm_compute; reflexivity).
  assert (visit_all ks1 w1 = Done () w2) as H3 by (vm_compute; reflexivity).
  assert (DeepRecord.get (rec (self w2)) ["sample"; "participant"]
          = Some (VStr "P1")) as H4 by (vm_compute; reflexivity).
  assert (get_model ["sample"; "participant"] = Some "participant") as H5
    by (vm_compute; reflexivity).
  assert (split_fields "participant" (VStr "P1")
          = Ok ([("natural", VStr "P1")], [], [])) as H6
    by (vm_compute; reflexivity).
  assert (forall n, Dict.get [("natural", VStr "P1")] "natural" = Some n ->
                    natural_error "participant" n = None) as H7.
  { intros n Hn. vm_compute in Hn. injection Hn as <-. vm_compute; reflexivity. }
  assert (1 < length (List.filter (matches "participant" [("natural", VStr "P1")])
                        (rows (db_of w2)))) as H8
    by (vm_compute; lia).
  rewrite (proj1 GeneralLoaderFacts.ambiguous_lookup_is_user_error
             W w1 ks1 _ _ w2 _ _ _ _ _ H1 H2 H3 H4 H5 H6 H7 H8).
  reflexivity.
Defined.

End Examples.

(** ** Instances of the properties in the small installation *)

Module Witnesses.
Import GeneralLoader Store AbstractLoader Demo.


Lemma asv_prefix_unchecked_witness :
  ASV.natural_lookup ("XYZ" +:+ "00023") = ASV.natural_lookup (ASV.PREFIX +:+ "00023").
Proof. apply (ModelsFacts.asv_prefix_unchecked "XYZ" "00023"). reflexivity. Defined.

Lemma parse_control_idempotent_witness :
  Sequencing.parse_control (Sequencing.parse_control (H := Demo.python) " Mock community ")
  = Sequencing.parse_control (H := Demo.python) " Mock community ".
Proof.
  apply (ModelsFacts.parse_control_idempotent (H := Demo.python) " Mock community ").
  repeat constructor.
Defined.

Lemma read_line_row_witness :
  let s := self (loader header true false false empty_db) in
  let s' := default s (read_line good s) in
  NoDup (Dict.keys (row s'))
  /\ forall k v, Dict.get (row s') k = Some v ->
       non_empty v = true
       /\ k ∈ COLS.*2
       /\ exists fields i f,
            Text.split (strip good) (sep s) = Some fields
            /\ cols s !! i = Some k /\ fields !! i = Some f /\ v = strip f.
Proof.
  intros s s'.
  apply (RowFacts.read_line_row good s s').
  vm_compute; reflexivity.
Defined.

Lemma process_file_raises_witness :
  let w := loader header true false false empty_db in
  let r := process_file "f.tsv" [good; unparsable] w in
  (exists e, r.1 = Error e
             /\ (exn_type e = UserDataError \/ exn_type e = RuntimeError))
  /\ db_of r.2 = db_of w.
Proof.
  cbv zeta.
  assert (returned (fun _ => tt)
            (process_file "f.tsv" [good; unparsable]
               (loader header true false false empty_db)).1 = None) as Hfail
    by (vm_compute; reflexivity).
 
  destruct (process_file "f.tsv" [good; unparsable]
              (loader header true false false empty_db)) as [r w'] eqn:Hrun.
  destruct r as [st|e]; [discriminate|].
  destruct (RowFacts.process_file_raises _ _ _ _ _ Hrun) as [Hc Hdb].
  split.
  - exists e. split; [reflexivity|exact Hc].
  - exact Hdb.
Defined.

Lemma warn_mode_raises_runtime_error_witness :
  let lh := __init__ header EmptyString true true false false None in
  let w := World lh.1 lh.2 empty_db in
  exists e, (process_file "f.tsv" [good] w).1 = Error e
            /\ exn_type e = RuntimeError.
Proof.
  cbv zeta.
  set (w := World _ _ _).
  assert (returned (fun _ => tt) (process_file "f.tsv" [good] w).1 = None) as Hfail
    by (vm_compute; reflexivity).
  destruct (process_file "f.tsv" [good] w) as [r w'] eqn:Hrun.
  destruct r as [st|e]; [discriminate|].
  exists e. split; [done|].
  refine (RowFacts.warn_mode_raises_runtime_error
            GeneralLoaderFacts.process_row_assigns "f.tsv" [good] w e w' _ Hrun).
  vm_compute; reflexivity.
Defined.

Lemma account_new_witness :
  let obj := construct "participant" [("natural", VStr "P9")] in
  let w := loader header false false false two_participants in
  exists w',
    account obj true None w
    = Done (Inst "participant" (Some 3) (i_attrs obj) (Some (audit_entry (self w)))) w'
    /\ counter_at (heap_of w') (new (self w)) !! "participant" = Some 1
    /\ length (rows (db_of w')) = 3.
Proof.
  intros obj w.
  destruct (FrameFacts.account_new obj None w) as (w' & Hacc & Hh & Hc & Hr & _).
  - reflexivity.
  - split; reflexivity.
  - exists w'. split_and!.
    + exact Hacc.
    + rewrite Hc. vm_compute; reflexivity.
    + rewrite Hr. vm_compute; reflexivity.
Defined.

Lemma trailing_failures_unreported_witness :
  let w := loader header false true false empty_db in
  exists st w',
    process_file "f.tsv" (invalid "S2" :: [invalid "S3"; invalid "S4"]) w = (Ok st, w')
    /\ st_count st = count (self w) + S (length [invalid "S3"; invalid "S4"])
    /\ st_warnings st = warnings (self w)
    /\ last_warning (self w')
       = Some (type_name ValidationError, not_valid, 2,
               2 + length [invalid "S3"; invalid "S4"]).
Proof.
  intros w.
  refine (FrameFacts.trailing_failures_unreported
            GeneralLoaderFacts.process_row_assigns "f.tsv" (invalid "S2")
            [invalid "S3"; invalid "S4"] not_valid ValidationError
            [ValidationError; ValidationError] w _).
  split.
  { eexists _, _. split_and!.
    1: vm_compute; reflexivity.
    1: vm_compute; reflexivity.
    1: vm_compute; reflexivity.
    vm_compute; reflexivity. }
  split.
  { eexists _, _. split_and!.
    1: vm_compute; reflexivity.
    1: vm_compute; reflexivity.
    1: vm_compute; reflexivity.
    vm_compute; reflexivity. }
  split; [|reflexivity].
  eexists _, _. split_and!.
  1: vm_compute; reflexivity.
  1: vm_compute; reflexivity.
  1: vm_compute; reflexivity.
  vm_compute; reflexivity.
Defined.

Lemma parse_failure_aborts_witness :
  let w := Checked.loader header empty_db in
  let l := line ["S1"; "lake"; "broken"; "P1"] in
  exists s' w',
    process_line (H1 := subclass (H1 := Checked.registry)) l w
    = Raised (Exn UnboundLocalError
                (at_line s' "local variable 'col' referenced before assignment")) w'
    /\ db_of w' = db_of w.
Proof.
  intros w l.
  refine (ParseFacts.parse_failure_aborts (H1 := Checked.registry) l w
            (default (self w) (read_line (H1 := subclass (H1 := Checked.registry))
                                 l (self w)))
            "sample__status" "broken" Checked.parse_status
            (Exn ValueError "unknown status: broken") _ _ _ _).
  - vm_compute; reflexivity.
  - vm_compute; reflexivity.
  - vm_compute; reflexivity.
  - vm_compute; reflexivity.
Defined.

End Witnesses.
